(** * Calendar-to-job inference engine of the cleaning scheduler

    A shallow embedding of the calendar sync edge function
    ([parseICalFromUrl], [parseICalData], [extractCheckouts],
    [detectSameDayTurnaround], [filterUpcomingCheckouts], [syncProperty] and
    the [serve] handler) and of the client-side copy of the iCal utilities,
    followed by the properties established about them.

    Conventions of the embedding:
    - a JavaScript [Date] is its time value, an integer number of
      milliseconds since the epoch ([Z]); the dates read from a feed or
      from the clock are valid, and so are their local midnights; local
      time is at a constant offset from UTC;
    - a JavaScript string is a [string]; case conversion acts on the ASCII
      letters;
    - the Supabase client is an explicit store ([Db]) threaded through the
      calls, and the outcomes the source branches on (a failed request, an
      error object returned by a query) are supplied by an environment
      record;
    - [throw] / [try ... catch] is the error monad [Exc]. *)

From Stdlib Require Import ZArith List String Ascii Bool Lia Permutation.
From Stdlib Require Import DecimalString Sorted.
Import ListNotations.
Open Scope Z_scope.

(* ================================================================== *)
(** * Part I: definitions                                              *)
(* ================================================================== *)

(** ** JavaScript strings *)

Module JsString.

Definition lowerChar (c : ascii) : ascii :=
  let n := nat_of_ascii c in
  if (Nat.leb 65 n && Nat.leb n 90)%bool then ascii_of_nat (n + 32) else c.

(** [String.prototype.toLowerCase] *)
Fixpoint toLowerCase (s : string) : string :=
  match s with
  | EmptyString => EmptyString
  | String c r => String (lowerChar c) (toLowerCase r)
  end.

(** [s.startsWith(p)] *)
Fixpoint startsWith (s p : string) : bool :=
  match p, s with
  | EmptyString, _ => true
  | String _ _, EmptyString => false
  | String a p', String b s' => if Ascii.eqb a b then startsWith s' p' else false
  end.

(** [String.prototype.includes] *)
Fixpoint includes (s sub : string) : bool :=
  if startsWith s sub then true
  else match s with
       | EmptyString => false
       | String _ r => includes r sub
       end.

Definition isSpace (c : ascii) : bool :=
  let n := nat_of_ascii c in
  (Nat.eqb n 32 || (Nat.leb 9 n && Nat.leb n 13))%bool.

(** [s.trim().length === 0] *)
Fixpoint isBlank (s : string) : bool :=
  match s with
  | EmptyString => true
  | String c r => if isSpace c then isBlank r else false
  end.

(** [s.split(sep)[0]] for a one-character separator. *)
Fixpoint splitHead (sep : ascii) (s : string) : string :=
  match s with
  | EmptyString => EmptyString
  | String c r => if Ascii.eqb c sep then EmptyString else String c (splitHead sep r)
  end.

(** [o || d] on a possibly missing string: the empty string is falsy. *)
Definition orDefault (o : option string) (d : string) : string :=
  match o with
  | Some s => if String.eqb s EmptyString then d else s
  | None => d
  end.

(** [url.replace(/^webcal:\/\//i, 'https://')] *)
Definition replaceWebcal (url : string) : string :=
  if startsWith (toLowerCase (substring 0 9 url)) "webcal://"
  then ("https://" ++ substring 9 (String.length url - 9) url)%string
  else url.

End JsString.

(** ** JavaScript dates *)

Module JsDate.

Definition msPerDay : Z := 86400000.

(** [TimeClip]: a date holds at most 8.64e15 milliseconds on either side
    of the epoch; beyond that it is Invalid Date, here [None]. *)
Definition maxTime : Z := 8640000000000000.
Definition TimeClip (t : Z) : option Z :=
  if Z.abs t <=? maxTime then Some t else None.

(** [Day(t)] and [TimeWithinDay(t)] of the language definition. *)
Definition Day (t : Z) : Z := t / msPerDay.
Definition TimeWithinDay (t : Z) : Z := t mod msPerDay.

(** Year, month (1..12) and day of month (1..31) of a day number in the
    proleptic Gregorian calendar. *)
Definition civilFromDays (days : Z) : Z * Z * Z :=
  let z := days + 719468 in
  let era := z / 146097 in
  let doe := z mod 146097 in
  let yoe := (doe - doe / 1460 + doe / 36524 - doe / 146096) / 365 in
  let doy := doe - (365 * yoe + yoe / 4 - yoe / 100) in
  let mp := (5 * doy + 2) / 153 in
  let d := doy - (153 * mp + 2) / 5 + 1 in
  let m := if mp <? 10 then mp + 3 else mp - 9 in
  let y := yoe + era * 400 in
  (if m <=? 2 then y + 1 else y, m, d).

Definition digit (n : Z) : ascii := ascii_of_N (Z.to_N (48 + n mod 10)).

Definition pad2 (n : Z) : string :=
  String (digit (n / 10)) (String (digit n) EmptyString).
Definition pad3 (n : Z) : string := String (digit (n / 100)) (pad2 n).
Definition pad4 (n : Z) : string := String (digit (n / 1000)) (pad3 n).
Definition pad6 (n : Z) : string :=
  String (digit (n / 100000)) (String (digit (n / 10000)) (pad4 n)).

(** The year field of [toISOString]: four digits, or a sign and six
    digits outside 0..9999. *)
Definition yearString (y : Z) : string :=
  if (0 <=? y) && (y <=? 9999) then pad4 y
  else if y <? 0 then String "-" (pad6 (- y))
  else String "+" (pad6 y).

Definition dateString (days : Z) : string :=
  let '(y, m, d) := civilFromDays days in
  (yearString y ++ "-" ++ pad2 m ++ "-" ++ pad2 d)%string.

Definition timeString (ms : Z) : string :=
  (pad2 (ms / 3600000) ++ ":" ++ pad2 (ms / 60000 mod 60) ++ ":"
     ++ pad2 (ms / 1000 mod 60) ++ "." ++ pad3 (ms mod 1000))%string.

(** [Date.prototype.toISOString] *)
Definition toISOString (t : Z) : string :=
  (dateString (Day t) ++ "T" ++ timeString (TimeWithinDay t) ++ "Z")%string.

Section LocalTime.
(** Offset of the operating time zone from UTC, in milliseconds
    (0 on the edge runtime). *)
Variable tz : Z.

(** Number of the local calendar day containing [t]. *)
Definition localDay (t : Z) : Z := (t + tz) / msPerDay.

(** [d = new Date(t); d.setHours(0, 0, 0, 0); d.getTime()] *)
Definition startOfDay (t : Z) : Z := t - (t + tz) mod msPerDay.

(** [d.setDate(d.getDate() + days)], in a zone whose offset does not
    change: the instant [days] days later, or [None] (Invalid Date) when
    that instant is not a time a date can hold. *)
Definition addDays (t days : Z) : option Z := TimeClip (t + days * msPerDay).
End LocalTime.

End JsDate.

(** ** Exceptions *)

(** A computation that either returns a value or throws an [Error] with a
    message. *)
Module Exc.
Inductive t (A : Type) : Type :=
| Return (a : A)
| Throw (message : string).
Arguments Return {A} a.
Arguments Throw {A} message.

Definition bind {A B : Type} (m : t A) (k : A -> t B) : t B :=
  match m with
  | Return a => k a
  | Throw e => Throw e
  end.

(** [try { m } catch (error) { h error }] *)
Definition tryCatch {A : Type} (m : t A) (h : string -> A) : A :=
  match m with
  | Return a => a
  | Throw e => h e
  end.
End Exc.

Declare Scope exc_scope.
Delimit Scope exc_scope with exc.
Notation "x <- m ;; k" := (Exc.bind m (fun x => k))
  (at level 61, m at next level, right associativity) : exc_scope.

(** ** iCal utilities *)

Module ICal.
Import JsString JsDate.

Record ICalEvent := {
  uid : string;
  summary : string;
  description : string;
  start : Z;
  end_ : Z;
  location : string
}.

Record ParsedCheckout := {
  date : Z;
  event : ICalEvent;
  has_same_day_checkin : bool;
  next_checkin_date : option Z
}.

(** What the calendar library exposes for one [vevent] sub-component: the
    accessors of [ICAL.Event], or an entry on which they throw. *)
Record VEventFields := {
  v_uid : option string;
  v_summary : option string;
  v_description : option string;
  v_location : option string;
  v_startDate : option Z;
  v_endDate : option Z
}.

Inductive VEvent :=
| Malformed
| Entry (f : VEventFields).

(** Body of the inner [try] of [parseICalData] for one entry: [None] when
    the entry is skipped ([continue], or an exception caught and logged). *)
Definition parseVEvent (v : VEvent) : option ICalEvent :=
  match v with
  | Malformed => None
  | Entry f =>
      let uid := orDefault (v_uid f) EmptyString in
      let summary := orDefault (v_summary f) "Untitled Event" in
      let description := orDefault (v_description f) EmptyString in
      let location := orDefault (v_location f) EmptyString in
      match v_startDate f with
      | None => None
      | Some startDate =>
          let endDate := match v_endDate f with
                         | Some e => e
                         | None => startDate
                         end in
          Some {| uid := uid; summary := summary; description := description;
                  start := startDate; end_ := endDate; location := location |}
      end
  end.

Fixpoint parseVEvents (vevents : list VEvent) : list ICalEvent :=
  match vevents with
  | [] => []
  | v :: rest =>
      match parseVEvent v with
      | Some e => e :: parseVEvents rest
      | None => parseVEvents rest
      end
  end.

Section Parser.
(** [ICAL.parse] followed by [getAllSubcomponents('vevent')]: [None]
    when the library rejects the document. *)
Variable ICAL_parse : string -> option (list VEvent).

(** [parseICalData] of the edge function. *)
Definition parseICalData (icalData : string) : Exc.t (list ICalEvent) :=
  match ICAL_parse icalData with
  | Some vevents => Exc.Return (parseVEvents vevents)
  | None => Exc.Throw "Failed to parse iCal data"
  end.
End Parser.

(** The blocked test written out at each of its three sites. *)
Definition isBlocked (e : ICalEvent) : bool :=
  let summary := toLowerCase (summary e) in
  includes summary "blocked"
  || includes summary "unavailable"
  || includes summary "not available"
  || String.eqb summary "busy".

(** [[...events].sort((a, b) => a.end.getTime() - b.end.getTime())]:
    the stable ascending sort on [end]. *)
Fixpoint insertByEnd (e : ICalEvent) (l : list ICalEvent) : list ICalEvent :=
  match l with
  | [] => [e]
  | x :: r => if end_ e <=? end_ x then e :: x :: r else x :: insertByEnd e r
  end.

Fixpoint sortByEnd (l : list ICalEvent) : list ICalEvent :=
  match l with
  | [] => []
  | e :: r => insertByEnd e (sortByEnd r)
  end.

Section LocalTime.
Variable tz : Z.

(** [detectSameDayTurnaround] *)
Fixpoint detectSameDayTurnaround (checkoutDate : Z) (events : list ICalEvent) : bool :=
  let checkoutDay := startOfDay tz checkoutDate in
  match events with
  | [] => false
  | event :: rest =>
      let eventStartDay := startOfDay tz (start event) in
      if eventStartDay =? checkoutDay then
        if negb (isBlocked event) then true
        else detectSameDayTurnaround checkoutDate rest
      else detectSameDayTurnaround checkoutDate rest
  end.

(** The inner loop of [extractCheckouts], over
    [sortedEvents[i+1 ..]]. *)
Fixpoint findNextCheckin (later : list ICalEvent) : option Z :=
  match later with
  | [] => None
  | nextEvent :: rest =>
      if negb (isBlocked nextEvent) then Some (start nextEvent)
      else findNextCheckin rest
  end.

(** The outer loop of [extractCheckouts]: [remaining] is
    [sortedEvents[i ..]]. *)
Fixpoint extractLoop (sortedEvents remaining : list ICalEvent) : list ParsedCheckout :=
  match remaining with
  | [] => []
  | event :: later =>
      if isBlocked event then extractLoop sortedEvents later
      else
        let checkoutDate := end_ event in
        {| date := checkoutDate;
           event := event;
           has_same_day_checkin := detectSameDayTurnaround checkoutDate sortedEvents;
           next_checkin_date := findNextCheckin later |}
        :: extractLoop sortedEvents later
  end.

(** [extractCheckouts] *)
Definition extractCheckouts (events : list ICalEvent) : list ParsedCheckout :=
  match events with
  | [] => []
  | _ =>
      let sortedEvents := sortByEnd events in
      extractLoop sortedEvents sortedEvents
  end.

(** The predicate of [filterUpcomingCheckouts], with the clock reading
    [clock] of [new Date()]; a comparison with an Invalid Date is false. *)
Definition isUpcoming (clock days : Z) (checkout : ParsedCheckout) : bool :=
  let now := startOfDay tz clock in
  let futureDate := addDays now days in
  let checkoutDay := startOfDay tz (date checkout) in
  (now <=? checkoutDay)
  && match futureDate with
     | Some future => checkoutDay <=? future
     | None => false
     end.

(** The parameter [days = 30]: the value passed, or the default. *)
Definition daysOrDefault (days : option Z) : Z :=
  match days with
  | Some d => d
  | None => 30
  end.

(** [filterUpcomingCheckouts] *)
Definition filterUpcomingCheckouts (clock : Z) (checkouts : list ParsedCheckout)
    (days : option Z) : list ParsedCheckout :=
  filter (isUpcoming clock (daysOrDefault days)) checkouts.
End LocalTime.

End ICal.

(** ** State and exceptions *)

(** Code that mutates a state of type [S] and may throw: the state reached
    when an exception is thrown is the one its handler starts from. *)
Module Eff.
Section Eff.
Context {S : Type}.

Definition t (A : Type) : Type := S -> Exc.t A * S.

Definition ret {A} (a : A) : t A := fun s => (Exc.Return a, s).
Definition throw {A} (message : string) : t A := fun s => (Exc.Throw message, s).
Definition bind {A B} (m : t A) (k : A -> t B) : t B :=
  fun s => match m s with
           | (Exc.Return a, s') => k a s'
           | (Exc.Throw e, s') => (Exc.Throw e, s')
           end.
Definition lift {A} (m : Exc.t A) : t A := fun s => (m, s).
Definition gets {A} (f : S -> A) : t A := fun s => (Exc.Return (f s), s).
Definition modify (f : S -> S) : t unit := fun s => (Exc.Return tt, f s).

(** [try { m } catch (error) { h error }], then read the state. *)
Definition tryCatch (m : t unit) (h : string -> t unit) : S -> S :=
  fun s => match m s with
           | (Exc.Return _, s') => s'
           | (Exc.Throw e, s') => snd (h e s')
           end.
End Eff.
End Eff.

Declare Scope eff_scope.
Delimit Scope eff_scope with eff.
Notation "x <- m ;; k" := (Eff.bind m (fun x => k))
  (at level 61, m at next level, right associativity) : eff_scope.
Notation "m ;;; k" := (Eff.bind m (fun _ => k))
  (at level 61, right associativity) : eff_scope.

(** ** Calendar sync *)

Module Sync.
Import JsString JsDate ICal.

(** A row of the [properties] table; the [Property] interface of the edge
    function names five of its columns. *)
Record Property := {
  id : string;
  user_id : string;
  name : string;
  address : option string;
  ical_url : string;
  last_synced : option string;
  sync_error : option string;
  active : bool;
  created_at : string;
  updated_at : string
}.

Record PropertyCleaner := {
  cleaner_id : string;
  is_primary : bool
}.

(** The columns of a [cleaning_jobs] row that the sync writes or reads.
    [checkout_date] holds the value the row was written with, and the
    [.eq] filter of a query is equality on that value. *)
Record CleaningJob := {
  job_property_id : string;
  job_cleaner_id : option string;
  checkout_date : string;
  checkin_date : option string;
  status : string;
  is_same_day_turnaround : bool
}.

Record SyncResult := {
  property_id : string;
  property_name : string;
  success : bool;
  jobs_created : nat;
  error : option string
}.

Record Db := {
  properties : list Property;
  cleaning_jobs : list CleaningJob
}.

Record HttpResponse := {
  http_status : Z;
  http_statusText : string;
  http_text : string
}.

(** [response.ok] *)
Definition ok (r : HttpResponse) : bool :=
  (200 <=? http_status r) && (http_status r <=? 299).

Inductive FetchOutcome :=
| NetworkError (message : string)
| Responded (r : HttpResponse).

(** The [{ data, error }] pair a query resolves to. *)
Inductive QueryResult (A : Type) :=
| QueryData (data : A)
| QueryError (message : string).
Arguments QueryData {A} data.
Arguments QueryError {A} message.

(** The branch taken by one iteration of the job loop. *)
Inductive Outcome := Created | SkippedExisting | CheckFailed | InsertFailed.

(** What the outside world answers during the sync of one property:
    [checkError i] and [insertError i] tell whether the existence query
    and the insert of iteration [i] return an error. *)
Record PropertyEnv := {
  fetch : string -> FetchOutcome;
  cleanersQuery : QueryResult (option (list PropertyCleaner));
  checkError : nat -> bool;
  insertError : nat -> bool;
  clockAtFilter : Z;
  clockAtSynced : Z
}.

(** The mutable state of [syncProperty]: the store, the local [result]
    object, and a history of the loop's branches. *)
Record World := {
  db : Db;
  result : SyncResult;
  log : list Outcome
}.

Definition decimal (n : Z) : string := NilZero.string_of_int (Z.to_int n).

(** [o || null] on a possibly missing string. *)
Definition truthy (o : option string) : option string :=
  match o with
  | Some s => if String.eqb s EmptyString then None else Some s
  | None => None
  end.

(** [primaryCleaner?.cleaner_id || propertyCleaners?.[0]?.cleaner_id || null] *)
Definition assignedCleaner (propertyCleaners : option (list PropertyCleaner)) : option string :=
  let primaryCleaner :=
    match propertyCleaners with
    | Some l => find is_primary l
    | None => None
    end in
  match truthy (option_map cleaner_id primaryCleaner) with
  | Some c => Some c
  | None =>
      truthy (option_map cleaner_id
                (match propertyCleaners with
                 | Some l => hd_error l
                 | None => None
                 end))
  end.

(** [checkout.date.toISOString().split('T')[0]] *)
Definition dateKey (t : Z) : string := splitHead "T" (toISOString t).

(** [.from('cleaning_jobs').select('id').eq('property_id', p).eq('checkout_date', d)] *)
Definition selectJobs (p d : string) (jobs : list CleaningJob) : list CleaningJob :=
  filter (fun j => String.eqb (job_property_id j) p && String.eqb (checkout_date j) d) jobs.

Definition insertJob (j : CleaningJob) (w : World) : World :=
  {| db := {| properties := properties (db w);
              cleaning_jobs := cleaning_jobs (db w) ++ [j] |};
     result := result w;
     log := log w |}.

Definition incrJobsCreated (w : World) : World :=
  {| db := db w;
     result := {| property_id := property_id (result w);
                  property_name := property_name (result w);
                  success := success (result w);
                  jobs_created := S (jobs_created (result w));
                  error := error (result w) |};
     log := log w |}.

Definition setSuccess (w : World) : World :=
  {| db := db w;
     result := {| property_id := property_id (result w);
                  property_name := property_name (result w);
                  success := true;
                  jobs_created := jobs_created (result w);
                  error := error (result w) |};
     log := log w |}.

Definition setError (e : string) (w : World) : World :=
  {| db := db w;
     result := {| property_id := property_id (result w);
                  property_name := property_name (result w);
                  success := success (result w);
                  jobs_created := jobs_created (result w);
                  error := Some e |};
     log := log w |}.

Definition note (o : Outcome) (w : World) : World :=
  {| db := db w; result := result w; log := log w ++ [o] |}.

(** [.from('properties').update(...).eq('id', p)] *)
Definition updateProperties (p : string) (f : Property -> Property) (w : World) : World :=
  {| db := {| properties := map (fun r => if String.eqb (id r) p then f r else r)
                                (properties (db w));
              cleaning_jobs := cleaning_jobs (db w) |};
     result := result w;
     log := log w |}.

(** [{ last_synced: ..., sync_error: null }] *)
Definition markSynced (stamp : string) (r : Property) : Property :=
  {| id := id r; user_id := user_id r; name := name r; address := address r;
     ical_url := ical_url r; last_synced := Some stamp; sync_error := None;
     active := active r; created_at := created_at r; updated_at := updated_at r |}.

(** [{ sync_error: result.error }] *)
Definition markSyncError (e : option string) (r : Property) : Property :=
  {| id := id r; user_id := user_id r; name := name r; address := address r;
     ical_url := ical_url r; last_synced := last_synced r; sync_error := e;
     active := active r; created_at := created_at r; updated_at := updated_at r |}.

Section Pipeline.
Variable tz : Z.
Variable ICAL_parse : string -> option (list VEvent).

(** [parseICalFromUrl] *)
Definition parseICalFromUrl (env : PropertyEnv) (url : string) : Exc.t (list ICalEvent) :=
  let fetchUrl := replaceWebcal url in
  match fetch env fetchUrl with
  | NetworkError message => Exc.Throw message
  | Responded response =>
      if negb (ok response) then
        Exc.Throw ("Failed to fetch iCal: " ++ decimal (http_status response)
                     ++ " " ++ http_statusText response)%string
      else
        let icalData := http_text response in
        if isBlank icalData then Exc.Throw "iCal data is empty"
        else parseICalData ICAL_parse icalData
  end.

(** The [for (const checkout of upcomingCheckouts)] loop of
    [syncProperty]; [i] counts the iterations. *)
Fixpoint reconcile (env : PropertyEnv) (property : Property)
    (assignedCleanerId : option string) (i : nat)
    (upcomingCheckouts : list ParsedCheckout) (w : World) : World :=
  match upcomingCheckouts with
  | [] => w
  | checkout :: rest =>
      let checkoutDateStr := dateKey (date checkout) in
      let checkinDateStr := option_map dateKey (next_checkin_date checkout) in
      let continue := reconcile env property assignedCleanerId (S i) rest in
      if checkError env i then continue (note CheckFailed w)
      else
        let existingJobs :=
          selectJobs (id property) checkoutDateStr (cleaning_jobs (db w)) in
        if (0 <? List.length existingJobs)%nat then continue (note SkippedExisting w)
        else if insertError env i then continue (note InsertFailed w)
        else
          continue
            (note Created
               (incrJobsCreated
                  (insertJob
                     {| job_property_id := id property;
                        job_cleaner_id := assignedCleanerId;
                        checkout_date := checkoutDateStr;
                        checkin_date := checkinDateStr;
                        status := "pending";
                        is_same_day_turnaround := has_same_day_checkin checkout |}
                     w)))
  end.

(** The checkouts [syncProperty] iterates over, for parsed [events]. *)
Definition upcomingOf (env : PropertyEnv) (events : list ICalEvent) : list ParsedCheckout :=
  filterUpcomingCheckouts tz (clockAtFilter env) (extractCheckouts tz events) (Some 30).

(** The [try] block of [syncProperty]. *)
Definition syncBody (env : PropertyEnv) (property : Property) : Eff.t (S := World) unit :=
  (events <- Eff.lift (parseICalFromUrl env (ical_url property)) ;;
   let upcomingCheckouts := upcomingOf env events in
   propertyCleaners <-
     match cleanersQuery env with
     | QueryError message => Eff.throw ("Failed to fetch cleaners: " ++ message)%string
     | QueryData data => Eff.ret data
     end ;;
   let assignedCleanerId := assignedCleaner propertyCleaners in
   Eff.modify (reconcile env property assignedCleanerId 0 upcomingCheckouts) ;;;
   Eff.modify (updateProperties (id property)
                 (markSynced (toISOString (clockAtSynced env)))) ;;;
   Eff.modify setSuccess)%eff.

(** The [catch] block of [syncProperty]. *)
Definition syncHandler (property : Property) (message : string) : Eff.t (S := World) unit :=
  (Eff.modify (setError (if String.eqb message EmptyString
                         then "Unknown error" else message)) ;;;
   e <- Eff.gets (fun w => error (result w)) ;;
   Eff.modify (updateProperties (id property) (markSyncError e)))%eff.

(** [syncProperty], as a transformation of the world it runs in. *)
Definition syncPropertyWorld (env : PropertyEnv) (property : Property) (db0 : Db) : World :=
  Eff.tryCatch (syncBody env property) (syncHandler property)
    {| db := db0;
       result := {| property_id := id property;
                    property_name := name property;
                    success := false;
                    jobs_created := 0;
                    error := None |};
       log := [] |}.

(** [syncProperty]: the result it resolves to and the store it leaves. *)
Definition syncProperty (env : PropertyEnv) (property : Property) (db0 : Db)
    : SyncResult * Db :=
  let w := syncPropertyWorld env property db0 in (result w, db w).

(** The [for (const property of properties)] loop of the handler. *)
Fixpoint syncEach (envOf : Property -> PropertyEnv) (props : list Property) (db0 : Db)
    : list SyncResult * Db :=
  match props with
  | [] => ([], db0)
  | property :: rest =>
      let '(r, db1) := syncProperty (envOf property) property db0 in
      let '(rs, db2) := syncEach envOf rest db1 in
      (r :: rs, db2)
  end.

Record SyncSummary := {
  message : string;
  synced : nat;
  errors : nat;
  total_jobs_created : nat;
  details : list SyncResult
}.

Inductive Response :=
| CorsResponse
| ErrorResponse (message : string) (code : Z)
| NoActiveProperties
| Completed (body : SyncSummary).

(** What the handler meets outside [syncProperty]. *)
Record ServeEnv := {
  isPreflight : bool;
  configured : bool;
  propertiesQuery : option string;
  envOf : Property -> PropertyEnv
}.

(** The summary the handler computes from the results. *)
Definition summarize (results : list SyncResult) : SyncSummary :=
  {| message := "Calendar sync completed";
     synced := List.length (filter success results);
     errors := List.length (filter (fun r => negb (success r)) results);
     total_jobs_created := fold_left (fun sum r => (sum + jobs_created r)%nat) results 0%nat;
     details := results |}.

(** The request handler passed to [serve]. *)
Definition serve (env : ServeEnv) (db0 : Db) : Response * Db :=
  if isPreflight env then (CorsResponse, db0)
  else if negb (configured env) then (ErrorResponse "Missing Supabase configuration" 500, db0)
  else
    match propertiesQuery env with
    | Some m =>
        let message := ("Failed to fetch properties: " ++ m)%string in
        (ErrorResponse (if String.eqb message EmptyString
                        then "Internal server error" else message) 500, db0)
    | None =>
        let props := filter active (properties db0) in
        match props with
        | [] => (NoActiveProperties, db0)
        | _ =>
            let '(results, db1) := syncEach (envOf env) props db0 in
            (Completed (summarize results), db1)
        end
    end.
End Pipeline.

End Sync.


(** ** Grouping checkouts for display *)

Module Grouping.
Import JsString JsDate ICal.

(** [[...].sort((a, b) => key(a) - key(b))]: the stable ascending sort. *)
Fixpoint insertBy {A : Type} (key : A -> Z) (x : A) (l : list A) : list A :=
  match l with
  | [] => [x]
  | y :: r => if key x <=? key y then x :: y :: r else y :: insertBy key x r
  end.

Fixpoint sortBy {A : Type} (key : A -> Z) (l : list A) : list A :=
  match l with
  | [] => []
  | x :: r => insertBy key x (sortBy key r)
  end.

(** A [Map<string, ParsedCheckout[]>]: its entries in insertion order. *)
Definition Grouped : Type := list (string * list ParsedCheckout).

(** [grouped.get(key)] *)
Fixpoint get (key : string) (grouped : Grouped) : option (list ParsedCheckout) :=
  match grouped with
  | [] => None
  | (k, v) :: r => if String.eqb k key then Some v else get key r
  end.

(** [if (!grouped.has(key)) grouped.set(key, []); grouped.get(key).push(c)] *)
Fixpoint push (key : string) (c : ParsedCheckout) (grouped : Grouped) : Grouped :=
  match grouped with
  | [] => [(key, [c])]
  | (k, v) :: r =>
      if String.eqb k key then (k, v ++ [c]) :: r else (k, v) :: push key c r
  end.

Section LocalTime.
Variable tz : Z.

(** [d.getFullYear()] and [d.getMonth() + 1] *)
Definition getFullYear (t : Z) : Z :=
  let '(y, _, _) := civilFromDays (localDay tz t) in y.
Definition monthNumber (t : Z) : Z :=
  let '(_, m, _) := civilFromDays (localDay tz t) in m.

(** [`${d.getFullYear()}-${String(d.getMonth() + 1).padStart(2, '0')}`] *)
Definition monthKey (t : Z) : string :=
  (NilZero.string_of_int (Z.to_int (getFullYear t)) ++ "-" ++ pad2 (monthNumber t))%string.

(** [groupCheckoutsByMonth] *)
Definition groupCheckoutsByMonth (checkouts : list ParsedCheckout) : Grouped :=
  let grouped :=
    fold_left (fun g checkout => push (monthKey (date checkout)) checkout g)
              checkouts [] in
  map (fun kv => (fst kv, sortBy date (snd kv))) grouped.
End LocalTime.

End Grouping.

(** ** Text formatting *)

Module Formatting.
Import JsString.

(** [String.prototype.trim] *)
Fixpoint trimStart (s : string) : string :=
  match s with
  | EmptyString => EmptyString
  | String c r => if isSpace c then trimStart r else s
  end.

Fixpoint trimEnd (s : string) : string :=
  match s with
  | EmptyString => EmptyString
  | String c r =>
      match trimEnd r with
      | EmptyString => if isSpace c then EmptyString else String c EmptyString
      | r' => String c r'
      end
  end.

Definition trim (s : string) : string := trimEnd (trimStart s).

(** [truncateText], for an integer [maxLength]. *)
Definition truncateText (text : string) (maxLength : Z) : string :=
  if String.eqb text EmptyString then EmptyString
  else if maxLength <? 1 then text
  else if Z.of_nat (String.length text) <=? maxLength then text
  else
    let truncateAt := Z.max 0 (maxLength - 3) in
    let truncated := trim (substring 0 (Z.to_nat truncateAt) text) in
    (truncated ++ "...")%string.

End Formatting.

(** ** The payment-intent handler *)

(** The handler of the payment function sharing the file of the sync: the
    request, the answers of the authentication service, of the profile
    query and of the payment provider are given by an environment, and the
    calls made to the provider and to the profile table are recorded in
    order. Amounts are integers (cents). *)
Module Payment.
Import JsString.

Record AuthUser := {
  user_id : string;
  user_email : option string
}.

(** A value of the request body, as far as the handler looks at it: a
    missing field, an integer number, or any other value (a fraction, a
    string, a boolean, null, an array, an object), given by its text and
    by what [!v] and [v < 50] evaluate to on it. *)
Inductive JsonValue :=
| Undefined
| Number (n : Z)
| Other (text : string) (falsy below50 : bool).

(** [{ userId, amount, currency = 'usd' }]; a missing [currency] is
    [None]. *)
Record RequestBody := {
  userId : string;
  amount : JsonValue;
  currency : option string
}.

Record Profile := {
  stripe_customer_id : option string;
  email : option string;
  full_name : option string
}.

Record StripeError := {
  error_type : string;
  error_message : string;
  error_code : option string;
  statusCode : option Z
}.

(** What a [throw] inside the handler carries: an error of the provider or
    anything else. *)
Inductive Thrown :=
| StripeErr (e : StripeError)
| OtherErr.

Inductive Outcome (A : Type) :=
| Returns (a : A)
| Throws (t : Thrown).
Arguments Returns {A} a.
Arguments Throws {A} t.

Inductive Call :=
| CustomersCreate (email name : option string) (supabase_user_id : string)
| ProfileUpdate (id customerId : string)
| PaymentIntentsCreate (amount : JsonValue) (currency customer supabase_user_id : string).

Record Env := {
  method : string;
  authUser : option AuthUser;
  authError : bool;
  json : Outcome RequestBody;
  profileQuery : option Profile;
  customersCreate : option string -> option string -> string -> Outcome string;
  paymentIntentsCreate : JsonValue -> string -> string -> string -> Outcome string
}.

Inductive Body :=
| PlainOk
| ErrorBody (type message : string) (param code : option string)
| SuccessBody (clientSecret customerId : string).

Record Response := {
  status : Z;
  body : Body
}.

(** [a || b] on possibly missing strings. *)
Definition orElse (a b : option string) : option string :=
  match a with
  | Some s => if String.eqb s EmptyString then b else Some s
  | None => b
  end.

(** [!amount || amount < 50]: on a value that is not a number the
    comparison is made after conversion and is false when the conversion
    gives no number, so that such a value is not rejected. *)
Definition amountRejected (a : JsonValue) : bool :=
  match a with
  | Undefined => true
  | Number n => (n =? 0) || (n <? 50)
  | Other _ falsy below50 => falsy || below50
  end.

(** The [catch] block. *)
Definition handleError (t : Thrown) : Response :=
  match t with
  | StripeErr e =>
      {| status := match statusCode e with
                   | Some c => if c =? 0 then 500 else c
                   | None => 500
                   end;
         body := ErrorBody (error_type e) (error_message e) None (error_code e) |}
  | OtherErr =>
      {| status := 500;
         body := ErrorBody "api_error" "An unexpected error occurred" None None |}
  end.

(** The part of the [try] block from the creation of the payment intent. *)
Definition createIntent (env : Env) (userId : string) (amount : JsonValue) (currency : string)
    (customerId : string) (calls : list Call) : Response * list Call :=
  let calls := calls ++ [PaymentIntentsCreate amount currency customerId userId] in
  match paymentIntentsCreate env amount currency customerId userId with
  | Throws t => (handleError t, calls)
  | Returns clientSecret =>
      ({| status := 200; body := SuccessBody clientSecret customerId |}, calls)
  end.

(** The request handler passed to [serve]. *)
Definition handler (env : Env) : Response * list Call :=
  if String.eqb (method env) "OPTIONS" then ({| status := 200; body := PlainOk |}, [])
  else
    match authError env, authUser env with
    | false, Some user =>
        match json env with
        | Throws t => (handleError t, [])
        | Returns request =>
            let currency := match currency request with Some c => c | None => "usd"%string end in
            if negb (String.eqb (user_id user) (userId request)) then
              ({| status := 403;
                  body := ErrorBody "authentication_error" "Forbidden: User ID mismatch"
                                    None None |}, [])
            else if amountRejected (amount request) then
              ({| status := 400;
                  body := ErrorBody "invalid_request_error"
                                    "Amount must be at least $0.50 USD"
                                    (Some "amount"%string) None |}, [])
            else
              let amount := amount request in
              match profileQuery env with
              | None =>
                  ({| status := 500;
                      body := ErrorBody "api_error" "Failed to fetch user profile"
                                        None None |}, [])
              | Some profile =>
                  match orElse (stripe_customer_id profile) None with
                  | Some customerId =>
                      createIntent env (userId request) amount currency customerId []
                  | None =>
                      let email := orElse (email profile) (user_email user) in
                      let name := orElse (full_name profile) None in
                      let calls := [CustomersCreate email name (userId request)] in
                      match customersCreate env email name (userId request) with
                      | Throws t => (handleError t, calls)
                      | Returns customerId =>
                          createIntent env (userId request) amount currency customerId
                            (calls ++ [ProfileUpdate (userId request) customerId])
                      end
                  end
              end
        end
    | _, _ =>
        ({| status := 401;
            body := ErrorBody "authentication_error" "Unauthorized" None None |}, [])
    end.

End Payment.

(** ** Vocabulary of the statements *)

Module Spec.
Import JsString JsDate ICal Sync.

(** [contains s x]: [x] occurs in [s] as a substring. *)
Definition contains (s x : string) : Prop :=
  exists a b, s = (a ++ x ++ b)%string.

(** The classification rule in words: the case-folded label equals
    "busy" or contains one of the three markers. *)
Definition blockedLabel (label : string) : Prop :=
  let l := toLowerCase label in
  l = "busy"%string \/ contains l "blocked" \/ contains l "unavailable"
  \/ contains l "not available".

Definition notBlocked (e : ICalEvent) : bool := negb (isBlocked e).

(** Ascending [end] between neighbours. *)
Fixpoint ascending (l : list ICalEvent) : Prop :=
  match l with
  | [] => True
  | x :: r => match r with
              | [] => True
              | y :: _ => end_ x <= end_ y
              end /\ ascending r
  end.

(** The window of the upcoming filter: the checkout's local midnight lies
    between today's midnight and the midnight [h] days later, both
    included. *)
Definition withinWindow (tz now h : Z) (c : ParsedCheckout) : Prop :=
  let today := startOfDay tz now in
  today <= startOfDay tz (date c) <= today + h * msPerDay.

(** The midnight [h] days after today is a time a date can hold. *)
Definition horizonHolds (tz now h : Z) : Prop :=
  Z.abs (startOfDay tz now + h * msPerDay) <= maxTime.

(** The character [sep] does not occur in [s]. *)
Fixpoint avoids (sep : ascii) (s : string) : Prop :=
  match s with
  | EmptyString => True
  | String c r => c <> sep /\ avoids sep r
  end.

(** The reconciler over the set of existing job keys of one property: the
    outcome of each checkout, in order, [i] being the position of the
    first one. A checkout whose date key is already present is skipped; a
    created job adds its key. *)
Fixpoint outcomes (env : PropertyEnv) (i : nat) (keys : list string)
    (checkouts : list ParsedCheckout) : list Outcome :=
  match checkouts with
  | [] => []
  | c :: rest =>
      let k := dateKey (date c) in
      if checkError env i then CheckFailed :: outcomes env (S i) keys rest
      else if existsb (String.eqb k) keys then SkippedExisting :: outcomes env (S i) keys rest
      else if insertError env i then InsertFailed :: outcomes env (S i) keys rest
      else Created :: outcomes env (S i) (k :: keys) rest
  end.

(** The job keys stored for property [p]. *)
Definition jobKeys (p : string) (jobs : list CleaningJob) : list string :=
  map checkout_date (filter (fun j => String.eqb (job_property_id j) p) jobs).

(** Two rows of [properties] that agree on every column except
    [last_synced] and [sync_error]. *)
Definition sameOtherColumns (r r' : Property) : Prop :=
  id r' = id r /\ user_id r' = user_id r /\ name r' = name r
  /\ address r' = address r /\ ical_url r' = ical_url r /\ active r' = active r
  /\ created_at r' = created_at r /\ updated_at r' = updated_at r.

(** [error.message || 'Unknown error'] *)
Definition reported (message : string) : string :=
  if String.eqb message EmptyString then "Unknown error"%string else message.

(** The failures of the feed of a property, with the message thrown: the
    request fails, the status is not a success, the body is empty or
    blank, the document is rejected. *)
Inductive feedFailure (ICAL_parse : string -> option (list VEvent))
    (env : PropertyEnv) (url : string) : string -> Prop :=
| NetworkFailure message :
    fetch env (replaceWebcal url) = NetworkError message ->
    feedFailure ICAL_parse env url message
| FetchError r :
    fetch env (replaceWebcal url) = Responded r ->
    ok r = false ->
    feedFailure ICAL_parse env url
      ("Failed to fetch iCal: " ++ decimal (http_status r) ++ " " ++ http_statusText r)%string
| EmptyFeedError r :
    fetch env (replaceWebcal url) = Responded r ->
    ok r = true ->
    isBlank (http_text r) = true ->
    feedFailure ICAL_parse env url "iCal data is empty"
| ParseError r :
    fetch env (replaceWebcal url) = Responded r ->
    ok r = true ->
    isBlank (http_text r) = false ->
    ICAL_parse (http_text r) = None ->
    feedFailure ICAL_parse env url "Failed to parse iCal data".

(** The result reported for a property whose pipeline threw [message]. *)
Definition failedResult (p : Property) (message : string) : SyncResult :=
  {| property_id := id p; property_name := name p; success := false;
     jobs_created := 0; error := Some (reported message) |}.

(** Some stored job of property [p] has the key [k]. *)
Definition hasJob (p k : string) (jobs : list CleaningJob) : bool :=
  (0 <? List.length (selectJobs p k jobs))%nat.

Definition isCreated (o : Outcome) : bool :=
  match o with Created => true | _ => false end.

(** [l1] is [l2] with some elements removed, order kept. *)
Inductive subsequence {A : Type} : list A -> list A -> Prop :=
| sub_nil : subsequence [] []
| sub_skip x l1 l2 : subsequence l1 l2 -> subsequence l1 (x :: l2)
| sub_keep x l1 l2 : subsequence l1 l2 -> subsequence (x :: l1) (x :: l2).

(** The row inserted for a checkout of property [p]. *)
Definition jobFor (p : Property) (cleaner : option string) (c : ParsedCheckout)
    : CleaningJob :=
  {| job_property_id := id p;
     job_cleaner_id := cleaner;
     checkout_date := dateKey (date c);
     checkin_date := option_map dateKey (next_checkin_date c);
     status := "pending";
     is_same_day_turnaround := has_same_day_checkin c |}.

(** The stored jobs of property [p]. *)
Definition jobsOf (p : string) (jobs : list CleaningJob) : list CleaningJob :=
  filter (fun j => String.eqb (job_property_id j) p) jobs.

(** A recorded call made on behalf of user [u], a payment intent being for
    the amount [a]. *)
Definition callFor (u : string) (a : Payment.JsonValue) (c : Payment.Call) : Prop :=
  match c with
  | Payment.CustomersCreate _ _ v => v = u
  | Payment.ProfileUpdate v _ => v = u
  | Payment.PaymentIntentsCreate n _ _ v => v = u /\ n = a
  end.

(** The day number of a calendar date, the inverse of [civilFromDays]. *)
Definition daysFromCivil (y m d : Z) : Z :=
  let y' := if m <=? 2 then y - 1 else y in
  let era := y' / 400 in
  let yoe := y' mod 400 in
  let mp := if 2 <? m then m - 3 else m + 9 in
  let doy := (153 * mp + 2) / 5 + d - 1 in
  let doe := yoe * 365 + yoe / 4 - yoe / 100 + doy in
  era * 146097 + doe - 719468.

(** The time values a [Date] can hold: at most 100,000,000 days from the
    epoch on either side. *)
Definition validTime (t : Z) : Prop :=
  -8640000000000000 <= t <= 8640000000000000.

(** An entry the parser keeps: well-formed and with a start time. *)
Definition usable (v : VEvent) : bool :=
  match v with
  | Malformed => false
  | Entry f => match v_startDate f with Some _ => true | None => false end
  end.

(** Orders by [end] and by [date]. *)
Definition byEnd (a b : ICalEvent) : Prop := end_ a <= end_ b.
Definition byDate (a b : ParsedCheckout) : Prop := date a <= date b.

End Spec.

(** ** Sample data *)

Module Sample.
Import JsString JsDate ICal Sync.
Local Open Scope string_scope.

Definition booking (label : string) (s e : Z) : ICalEvent :=
  {| uid := "uid"; summary := label; description := EmptyString;
     start := s; end_ := e; location := EmptyString |}.

(** 2024-01-10 14:00 to 2024-01-12 11:00, UTC. *)
Definition bookingA : ICalEvent := booking "Booking A" 1704895200000 1705057200000.
(** 2024-01-12 15:00 to 2024-01-15 11:00, UTC. *)
Definition bookingB : ICalEvent := booking "Booking B" 1705071600000 1705316400000.
(** 2024-01-13 15:00 to 2024-01-15 11:00, UTC. *)
Definition bookingB' : ICalEvent := booking "Booking B" 1705158000000 1705316400000.
(** A host block between the two stays. *)
Definition hostBlock : ICalEvent := booking "Blocked" 1705057200000 1705071600000.

Definition checkoutAt (t : Z) : ParsedCheckout :=
  {| date := t; event := booking "Guest" (t - 86400000) t;
     has_same_day_checkin := false; next_checkin_date := None |}.

(** 2024-01-01 00:00 UTC and the midnights 30 and 31 days later. *)
Definition jan1 : Z := 1704067200000.
Definition jan31 : Z := 1706659200000.
Definition feb1 : Z := 1706745600000.

(** 2024-06-01 00:00 and 14:00, UTC. *)
Definition june1 : Z := 1717200000000.
Definition june1_afternoon : Z := 1717250400000.

Definition property (i : string) : Property :=
  {| id := i; user_id := "host"; name := "Flat"; address := None;
     ical_url := ("webcal://calendar.example/" ++ i)%string;
     last_synced := None; sync_error := Some "stale"; active := true;
     created_at := "2024-01-01T00:00:00.000Z";
     updated_at := "2024-01-01T00:00:00.000Z" |}.

Definition entry (label : option string) (s : Z) (e : option Z) : VEvent :=
  Entry {| v_uid := Some "uid"; v_summary := label; v_description := None;
           v_location := None; v_startDate := Some s; v_endDate := e |}.

(** A feed with the two sample stays and a broken entry. *)
Definition feed (_ : string) : option (list VEvent) :=
  Some [entry (Some "Booking A") 1704895200000 (Some 1705057200000);
        Malformed;
        entry (Some "Booking B") 1705071600000 (Some 1705316400000)].

Definition respond (code : Z) (reason : string) : FetchOutcome :=
  Responded {| http_status := code; http_statusText := reason;
               http_text := "BEGIN:VCALENDAR" |}.

Definition cleaners : option (list PropertyCleaner) :=
  Some [{| cleaner_id := "backup"; is_primary := false |};
        {| cleaner_id := "main"; is_primary := true |}].

(** An environment on 2024-01-10 14:00 UTC in which the feed of the
    property with id 2 answers with status 500 and the inserts selected by
    [failing] fail. *)
Definition world (failing : nat -> bool) (_ : Property) : PropertyEnv :=
  {| fetch := fun url =>
       if String.eqb url "https://calendar.example/2"
       then respond 500 "Internal Server Error"
       else respond 200 "OK";
     cleanersQuery := QueryData cleaners;
     checkError := fun _ => false;
     insertError := failing;
     clockAtFilter := 1704895200000;
     clockAtSynced := 1704895260000 |}.

Definition noFault (_ : nat) : bool := false.
Definition firstInsertFails (i : nat) : bool := Nat.eqb i 0.

Definition emptyDb : Db :=
  {| properties := [property "1"; property "2"; property "3"]; cleaning_jobs := [] |}.

Definition request : ServeEnv :=
  {| isPreflight := false; configured := true; propertiesQuery := None;
     envOf := world noFault |}.

Definition job (p key : string) : CleaningJob :=
  {| job_property_id := p; job_cleaner_id := None; checkout_date := key;
     checkin_date := None; status := "confirmed"; is_same_day_turnaround := false |}.

End Sample.
(* ================================================================== *)
(** * Part II: properties                                              *)
(* ================================================================== *)

Import JsString JsDate ICal Sync Spec.

Create HintDb sync discriminated.

Arguments isBlocked e : simpl never.
Arguments startOfDay tz t : simpl never.
Arguments toISOString t : simpl never.
Arguments dateKey t : simpl never.

(** ** Strings *)

Section StringFacts.
Local Open Scope string_scope.

Lemma startsWith_iff (s p : string) :
  startsWith s p = true <-> exists r, s = p ++ r.
Proof.
  revert s; induction p as [|a p IH]; intros s.
  - split; [intros _; now exists s | now destruct s].
  - destruct s as [|b s]; simpl.
    + split; [discriminate | intros [r Hr]; discriminate].
    + destruct (Ascii.eqb_spec a b) as [->|Hab].
      * split.
        -- intros H. apply IH in H as [r ->]. now exists r.
        -- intros [r Hr]. apply IH. exists r. now injection Hr.
      * split; [discriminate | intros [r Hr]; injection Hr; congruence].
Qed.

Lemma includes_unfold (s sub : string) :
  includes s sub =
  if startsWith s sub then true
  else match s with
       | EmptyString => false
       | String _ r => includes r sub
       end.
Proof. destruct s; reflexivity. Qed.

(** [includes] is the substring test. *)
Lemma includes_iff (s sub : string) :
  includes s sub = true <-> exists a b, s = a ++ sub ++ b.
Proof.
  split.
  - induction s as [|c s IH]; rewrite includes_unfold.
    + destruct (startsWith EmptyString sub) eqn:E; [|discriminate].
      intros _. apply startsWith_iff in E as [r Hr]. now exists EmptyString, r.
    + destruct (startsWith (String c s) sub) eqn:E.
      * intros _. apply startsWith_iff in E as [r Hr]. now exists EmptyString, r.
      * intros H. destruct (IH H) as (a & b & ->). now exists (String c a), b.
  - intros (a & b & ->). induction a as [|c a IH]; rewrite includes_unfold.
    + simpl. replace (startsWith (sub ++ b) sub) with true; [reflexivity|].
      symmetry. apply startsWith_iff. now exists b.
    + destruct (startsWith _ sub); [reflexivity | exact IH].
Qed.

End StringFacts.

(** ** The blocked test *)


Lemma isBlocked_iff (e : ICalEvent) :
  isBlocked e = true <-> blockedLabel (summary e).
Proof.
  unfold isBlocked, blockedLabel, contains.
  rewrite !orb_true_iff, !includes_iff, String.eqb_eq. tauto.
Qed.

Lemma isBlocked_false_iff (e : ICalEvent) :
  isBlocked e = false <-> ~ blockedLabel (summary e).
Proof.
  rewrite <- isBlocked_iff. destruct (isBlocked e); split; congruence.
Qed.

(** ** The sort *)


Lemma insertByEnd_perm (e : ICalEvent) (l : list ICalEvent) :
  Permutation (insertByEnd e l) (e :: l).
Proof.
  induction l as [|x r IH]; simpl; [reflexivity|].
  destruct (end_ e <=? end_ x); [reflexivity|].
  rewrite IH. apply perm_swap.
Qed.

Lemma sortByEnd_perm (l : list ICalEvent) : Permutation (sortByEnd l) l.
Proof.
  induction l as [|e r IH]; simpl; [reflexivity|].
  rewrite insertByEnd_perm. now constructor.
Qed.


Lemma insertByEnd_ascending (e : ICalEvent) (l : list ICalEvent) :
  ascending l -> ascending (insertByEnd e l).
Proof.
  induction l as [|x r IH]; simpl; [tauto|].
  intros [Hx Hr]. destruct (Z.leb_spec (end_ e) (end_ x)) as [Hle|Hgt]; simpl.
  - tauto.
  - split; [|now apply IH].
    destruct r as [|y r']; simpl; [lia|].
    destruct (Z.leb_spec (end_ e) (end_ y)); lia.
Qed.

Lemma sortByEnd_ascending (l : list ICalEvent) : ascending (sortByEnd l).
Proof.
  induction l as [|e r IH]; simpl; [exact I|]. now apply insertByEnd_ascending.
Qed.

(** Stability: events with the same [end] keep their relative order. *)
Lemma insertByEnd_stable (k : Z) (e : ICalEvent) (l : list ICalEvent) :
  ascending l ->
  filter (fun x => end_ x =? k) (insertByEnd e l)
  = filter (fun x => end_ x =? k) (e :: l).
Proof.
  induction l as [|x r IH]; [reflexivity|].
  intros [Hx Hr]. cbn [insertByEnd].
  destruct (Z.leb_spec (end_ e) (end_ x)) as [Hle|Hgt]; [reflexivity|].
  cbn [filter] in *. rewrite (IH Hr).
  destruct (Z.eqb_spec (end_ x) k), (Z.eqb_spec (end_ e) k); try reflexivity; lia.
Qed.

Lemma sortByEnd_stable (k : Z) (l : list ICalEvent) :
  filter (fun x => end_ x =? k) (sortByEnd l) = filter (fun x => end_ x =? k) l.
Proof.
  induction l as [|e r IH]; [reflexivity|].
  cbn [sortByEnd]. rewrite insertByEnd_stable by apply sortByEnd_ascending.
  cbn [filter]. now rewrite IH.
Qed.

Lemma sortByEnd_In (e : ICalEvent) (l : list ICalEvent) :
  In e (sortByEnd l) <-> In e l.
Proof.
  split; apply Permutation_in; [|symmetry]; apply sortByEnd_perm.
Qed.

Lemma filter_Permutation {A : Type} (f : A -> bool) (l l' : list A) :
  Permutation l l' -> Permutation (filter f l) (filter f l').
Proof.
  induction 1 as [|x l l' _ IH|x y l|l l' l'' _ IH1 _ IH2]; simpl.
  - constructor.
  - destruct (f x); [now constructor | assumption].
  - destruct (f x), (f y); try reflexivity. apply perm_swap.
  - now transitivity (filter f l').
Qed.

(** ** Local calendar days *)

Lemma startOfDay_localDay (tz t : Z) :
  startOfDay tz t = msPerDay * localDay tz t - tz.
Proof.
  unfold startOfDay, localDay.
  pose proof (Z.div_mod (t + tz) msPerDay) as H.
  unfold msPerDay in *. lia.
Qed.

Lemma startOfDay_eq_iff (tz a b : Z) :
  startOfDay tz a = startOfDay tz b <-> localDay tz a = localDay tz b.
Proof. rewrite !startOfDay_localDay. unfold msPerDay. lia. Qed.

Lemma startOfDay_le_iff (tz a b : Z) :
  startOfDay tz a <= startOfDay tz b <-> localDay tz a <= localDay tz b.
Proof. rewrite !startOfDay_localDay. unfold msPerDay. lia. Qed.

Lemma startOfDay_le (tz t : Z) : startOfDay tz t <= t < startOfDay tz t + msPerDay.
Proof.
  unfold startOfDay. pose proof (Z.mod_pos_bound (t + tz) msPerDay).
  unfold msPerDay in *. lia.
Qed.

Lemma localDay_startOfDay (tz t : Z) : localDay tz (startOfDay tz t) = localDay tz t.
Proof.
  rewrite startOfDay_localDay. unfold localDay.
  replace (msPerDay * ((t + tz) / msPerDay) - tz + tz)
    with (((t + tz) / msPerDay) * msPerDay) by lia.
  apply Z.div_mul. discriminate.
Qed.

(** ** The checkout extractor *)

Lemma extractCheckouts_eq (tz : Z) (events : list ICalEvent) :
  extractCheckouts tz events
  = extractLoop tz (sortByEnd events) (sortByEnd events).
Proof. destruct events; reflexivity. Qed.

Lemma extractLoop_nth (tz : Z) (all pre later : list ICalEvent) (e : ICalEvent) :
  isBlocked e = false ->
  nth_error (extractLoop tz all (pre ++ e :: later))
            (List.length (filter notBlocked pre))
  = Some {| date := end_ e;
            event := e;
            has_same_day_checkin := detectSameDayTurnaround tz (end_ e) all;
            next_checkin_date := findNextCheckin later |}.
Proof.
  intros He. induction pre as [|x pre IH]; simpl.
  - now rewrite He.
  - unfold notBlocked at 1. destruct (isBlocked x); simpl; exact IH.
Qed.

Lemma extractLoop_event (tz : Z) (all l : list ICalEvent) :
  map event (extractLoop tz all l) = filter notBlocked l.
Proof.
  induction l as [|e l IH]; simpl; [reflexivity|].
  unfold notBlocked at 1. destruct (isBlocked e); simpl; now rewrite IH.
Qed.

Lemma extractLoop_In (tz : Z) (all l : list ICalEvent) (c : ParsedCheckout) :
  In c (extractLoop tz all l) ->
  In (event c) l /\ isBlocked (event c) = false /\ date c = end_ (event c)
  /\ has_same_day_checkin c = detectSameDayTurnaround tz (date c) all.
Proof.
  induction l as [|e l IH]; simpl; [tauto|].
  destruct (isBlocked e) eqn:E.
  - intros H. destruct (IH H) as (? & ? & ? & ?). tauto.
  - intros [<-|H]; simpl; [tauto|].
    destruct (IH H) as (? & ? & ? & ?). tauto.
Qed.

Lemma detectSameDayTurnaround_iff (tz d : Z) (events : list ICalEvent) :
  detectSameDayTurnaround tz d events = true <->
  exists e, In e events /\ isBlocked e = false
            /\ startOfDay tz (start e) = startOfDay tz d.
Proof.
  induction events as [|x r IH]; simpl.
  - split; [discriminate | intros (e & [] & _)].
  - destruct (Z.eqb_spec (startOfDay tz (start x)) (startOfDay tz d)) as [Heq|Hne].
    + destruct (isBlocked x) eqn:E; simpl.
      * rewrite IH. split; intros (e & Hin & Hb & Hd).
        -- exists e; tauto.
        -- destruct Hin as [->|Hin]; [congruence | exists e; tauto].
      * split; [intros _; exists x; tauto | reflexivity].
    + rewrite IH. split; intros (e & Hin & Hb & Hd).
      * exists e; tauto.
      * destruct Hin as [->|Hin]; [contradiction | exists e; tauto].
Qed.

Lemma findNextCheckin_at (later : list ICalEvent) :
  forall j e', nth_error later j = Some e' -> isBlocked e' = false ->
    (forall k ek, (k < j)%nat -> nth_error later k = Some ek -> isBlocked ek = true) ->
    findNextCheckin later = Some (start e').
Proof.
  induction later as [|x r IH]; intros j e' Hj He' Hbefore.
  - destruct j; discriminate.
  - destruct j as [|j]; simpl in *.
    + injection Hj as ->. now rewrite He'.
    + rewrite (Hbefore 0%nat x) by (reflexivity || lia). simpl.
      apply (IH j e' Hj He'). intros k ek Hk Hn.
      apply (Hbefore (S k) ek); [lia | exact Hn].
Qed.

Lemma findNextCheckin_none (later : list ICalEvent) :
  (forall k ek, nth_error later k = Some ek -> isBlocked ek = true) ->
  findNextCheckin later = None.
Proof.
  induction later as [|x r IH]; intros Hall; simpl; [reflexivity|].
  rewrite (Hall 0%nat x eq_refl). simpl.
  apply IH. intros k ek Hk. now apply (Hall (S k) ek).
Qed.

Lemma extractCheckouts_In (tz : Z) (events : list ICalEvent) (c : ParsedCheckout) :
  In c (extractCheckouts tz events) ->
  In (event c) events /\ isBlocked (event c) = false /\ date c = end_ (event c)
  /\ has_same_day_checkin c = detectSameDayTurnaround tz (date c) (sortByEnd events).
Proof.
  rewrite extractCheckouts_eq. intros H.
  apply extractLoop_In in H as (Hin & ? & ? & ?).
  apply (proj1 (sortByEnd_In _ _)) in Hin. tauto.
Qed.

Lemma extractCheckouts_events (tz : Z) (events : list ICalEvent) :
  Permutation (map event (extractCheckouts tz events)) (filter notBlocked events).
Proof.
  rewrite extractCheckouts_eq, extractLoop_event.
  apply filter_Permutation, sortByEnd_perm.
Qed.

Lemma extractCheckouts_covers (tz : Z) (events : list ICalEvent) (e : ICalEvent) :
  In e events -> isBlocked e = false ->
  exists c, In c (extractCheckouts tz events) /\ event c = e /\ date c = end_ e.
Proof.
  intros Hin He.
  assert (H : In e (map event (extractCheckouts tz events))).
  { apply (Permutation_in e (Permutation_sym (extractCheckouts_events tz events))).
    apply filter_In. unfold notBlocked. now rewrite He. }
  apply in_map_iff in H as (c & <- & Hc). exists c. split; [exact Hc|].
  split; [reflexivity|]. now apply extractCheckouts_In in Hc.
Qed.

(** C3. Blocked exclusion: every checkout the extractor produces comes from
    an input event whose label is not blocked and carries that event's end
    as its date, so an event with a blocked label yields none whatever its
    dates; and the events of the produced checkouts are, with
    multiplicity, exactly the non-blocked input events, so each of those
    yields exactly one checkout. *)
Theorem C3_blocked_exclusion (tz : Z) (events : list ICalEvent) :
  (forall c, In c (extractCheckouts tz events) ->
     In (event c) events /\ ~ blockedLabel (summary (event c))
     /\ date c = end_ (event c))
  /\ (forall e, blockedLabel (summary e) ->
        ~ In e (map event (extractCheckouts tz events)))
  /\ Permutation (map event (extractCheckouts tz events))
                 (filter (fun e => negb (isBlocked e)) events).
Proof.
  split; [|split].
  - intros c Hc. apply extractCheckouts_In in Hc as (? & Hb & ? & _).
    apply (proj1 (isBlocked_false_iff _)) in Hb. tauto.
  - intros e He Hin. apply in_map_iff in Hin as (c & <- & Hc).
    apply extractCheckouts_In in Hc as (_ & Hb & _).
    apply (proj1 (isBlocked_false_iff _)) in Hb. contradiction.
  - apply extractCheckouts_events.
Qed.

(** The sample host block produces no checkout, alone or between stays. *)
Example blocked_event_yields_nothing :
  extractCheckouts 0 [Sample.hostBlock] = []
  /\ map event (extractCheckouts 0 [Sample.bookingB; Sample.hostBlock; Sample.bookingA])
     = [Sample.bookingA; Sample.bookingB].
Proof. split; reflexivity. Qed.

(** C4. Same-day check-in: the flag of a produced checkout is true exactly
    when some non-blocked event of the whole input, the originating event
    included, starts on the local calendar day of the checkout date. *)
Theorem C4_same_day_checkin (tz : Z) (events : list ICalEvent) (c : ParsedCheckout) :
  In c (extractCheckouts tz events) ->
  (has_same_day_checkin c = true <->
   exists e, In e events /\ ~ blockedLabel (summary e)
             /\ startOfDay tz (start e) = startOfDay tz (date c))
  /\ (startOfDay tz (start (event c)) = startOfDay tz (end_ (event c)) ->
      has_same_day_checkin c = true).
Proof.
  intros Hc. apply extractCheckouts_In in Hc as (Hin & Hb & Hd & ->).
  assert (Hiff : detectSameDayTurnaround tz (date c) (sortByEnd events) = true <->
                 exists e, In e events /\ ~ blockedLabel (summary e)
                           /\ startOfDay tz (start e) = startOfDay tz (date c)).
  { rewrite detectSameDayTurnaround_iff.
    split; intros (e & He & Hbe & Hs); exists e.
    - apply (proj1 (sortByEnd_In _ _)) in He.
      apply (proj1 (isBlocked_false_iff _)) in Hbe. tauto.
    - apply (proj2 (sortByEnd_In _ _)) in He.
      apply (proj2 (isBlocked_false_iff _)) in Hbe. tauto. }
  split; [exact Hiff|].
  intros Hself. apply Hiff. exists (event c).
  apply (proj1 (isBlocked_false_iff _)) in Hb. rewrite Hd. tauto.
Qed.

Lemma C4_same_day_checkin_witness :
  let c := {| date := 1705057200000; event := Sample.bookingA;
              has_same_day_checkin := true;
              next_checkin_date := Some 1705071600000 |} in
  In c (extractCheckouts 0 [Sample.bookingA; Sample.bookingB])
  /\ ((has_same_day_checkin c = true <->
       exists e, In e [Sample.bookingA; Sample.bookingB]
                 /\ ~ blockedLabel (summary e)
                 /\ startOfDay 0 (start e) = startOfDay 0 (date c))
      /\ (startOfDay 0 (start (event c)) = startOfDay 0 (end_ (event c)) ->
          has_same_day_checkin c = true)).
Proof.
  intros c.
  assert (H : In c (extractCheckouts 0 [Sample.bookingA; Sample.bookingB]))
    by (left; reflexivity).
  split; [exact H|].
  exact (C4_same_day_checkin 0 [Sample.bookingA; Sample.bookingB] c H).
Defined.

(** A stay of a single day is its own same-day check-in, and with the next
    stay starting a day later the flag is false. *)
Example same_day_examples :
  map has_same_day_checkin
      (extractCheckouts 0 [Sample.booking "Day use" 1705053600000 1705082400000]) = [true]
  /\ map has_same_day_checkin
         (extractCheckouts 0 [Sample.bookingA; Sample.bookingB']) = [false; false]
  /\ map next_checkin_date
         (extractCheckouts 0 [Sample.bookingA; Sample.bookingB'])
     = [Some 1705158000000; None].
Proof. repeat split; reflexivity. Qed.

(** C5. Next check-in: the checkout produced for the non-blocked event at
    position [i] of the sorted sequence (the stable ascending sort on
    [end]) carries the start of the first non-blocked event at a later
    position, and nothing when every later event is blocked. *)
Theorem C5_next_checkin_lookup (tz : Z) (events : list ICalEvent) (i : nat) (e : ICalEvent) :
  nth_error (sortByEnd events) i = Some e ->
  ~ blockedLabel (summary e) ->
  exists c,
    nth_error (extractCheckouts tz events)
              (List.length (filter notBlocked (firstn i (sortByEnd events)))) = Some c
    /\ event c = e /\ date c = end_ e
    /\ (forall j e', (i < j)%nat ->
          nth_error (sortByEnd events) j = Some e' ->
          ~ blockedLabel (summary e') ->
          (forall k ek, (i < k < j)%nat -> nth_error (sortByEnd events) k = Some ek ->
                        blockedLabel (summary ek)) ->
          next_checkin_date c = Some (start e'))
    /\ ((forall k ek, (i < k)%nat -> nth_error (sortByEnd events) k = Some ek ->
                      blockedLabel (summary ek)) ->
        next_checkin_date c = None).
Proof.
  intros Hi He. apply (proj2 (isBlocked_false_iff _)) in He.
  rewrite extractCheckouts_eq.
  set (sorted := sortByEnd events) in *.
  destruct (nth_error_split sorted i Hi) as (pre & later & Hsplit & Hlen).
  assert (Hpre : firstn i sorted = pre).
  { rewrite Hsplit, <- Hlen. rewrite firstn_app, Nat.sub_diag, firstn_all. simpl.
    apply app_nil_r. }
  assert (Hnth : forall m, nth_error sorted (S i + m) = nth_error later m).
  { intros m. rewrite Hsplit, <- Hlen.
    rewrite nth_error_app2 by lia.
    replace (S (List.length pre) + m - List.length pre)%nat with (S m) by lia.
    reflexivity. }
  eexists. split.
  - rewrite Hpre. rewrite Hsplit at 2. apply extractLoop_nth. exact He.
  - simpl. split; [reflexivity|]. split; [reflexivity|]. split.
    + intros j e' Hij Hj He' Hbetween.
      apply (findNextCheckin_at later (j - S i) e').
      * rewrite <- Hnth. now replace (S i + (j - S i))%nat with j by lia.
      * now apply isBlocked_false_iff.
      * intros k ek Hk Hek. apply isBlocked_iff.
        apply (Hbetween (S i + k)%nat ek); [lia | now rewrite Hnth].
    + intros Hall. apply findNextCheckin_none.
      intros k ek Hek. apply isBlocked_iff.
      apply (Hall (S i + k)%nat ek); [lia | now rewrite Hnth].
Qed.

Lemma C5_next_checkin_lookup_witness :
  nth_error (sortByEnd [Sample.bookingB; Sample.hostBlock; Sample.bookingA]) 0
  = Some Sample.bookingA
  /\ ~ blockedLabel (summary Sample.bookingA)
  /\ exists c,
       nth_error (extractCheckouts 0 [Sample.bookingB; Sample.hostBlock; Sample.bookingA]) 0
       = Some c
       /\ event c = Sample.bookingA /\ date c = 1705057200000
       /\ next_checkin_date c = Some 1705071600000.
Proof.
  assert (Hi : nth_error (sortByEnd [Sample.bookingB; Sample.hostBlock; Sample.bookingA]) 0
               = Some Sample.bookingA) by reflexivity.
  assert (Hb : ~ blockedLabel (summary Sample.bookingA))
    by (apply isBlocked_false_iff; reflexivity).
  split; [exact Hi|]. split; [exact Hb|].
  destruct (C5_next_checkin_lookup 0 _ 0%nat _ Hi Hb) as (c & Hc & Hev & Hd & Hnext & _).
  exists c. split; [exact Hc|]. split; [exact Hev|]. split; [exact Hd|].
  apply (Hnext 2%nat Sample.bookingB); [lia | reflexivity | |].
  - apply isBlocked_false_iff; reflexivity.
  - intros k ek Hk Hek. assert (k = 1%nat) as -> by lia.
    injection Hek as <-. apply isBlocked_iff. reflexivity.
Defined.

(** ** The upcoming-window filter *)

Lemma isUpcoming_true (tz clock days : Z) (c : ParsedCheckout) :
  isUpcoming tz clock days c = true -> withinWindow tz clock days c.
Proof.
  unfold isUpcoming, withinWindow, addDays, TimeClip.
  destruct (Z.abs _ <=? maxTime); rewrite andb_true_iff, ?Z.leb_le.
  - tauto.
  - intros [_ H]. discriminate.
Qed.

Lemma isUpcoming_holds (tz clock days : Z) (c : ParsedCheckout) :
  isUpcoming tz clock days c = true -> horizonHolds tz clock days.
Proof.
  unfold isUpcoming, horizonHolds, addDays, TimeClip.
  destruct (Z.leb_spec (Z.abs (startOfDay tz clock + days * msPerDay)) maxTime) as [H|H].
  - intros _. exact H.
  - rewrite andb_false_r. discriminate.
Qed.

Lemma isUpcoming_iff (tz clock days : Z) (c : ParsedCheckout) :
  horizonHolds tz clock days ->
  (isUpcoming tz clock days c = true <-> withinWindow tz clock days c).
Proof.
  intros Hvalid. split; [apply isUpcoming_true|].
  unfold isUpcoming, withinWindow, addDays, TimeClip.
  apply Z.leb_le in Hvalid. rewrite Hvalid.
  rewrite andb_true_iff, !Z.leb_le. tauto.
Qed.

Lemma isUpcoming_beyond (tz clock days : Z) (c : ParsedCheckout) :
  ~ horizonHolds tz clock days -> isUpcoming tz clock days c = false.
Proof.
  intros Hno. unfold isUpcoming, addDays, TimeClip.
  destruct (Z.leb_spec (Z.abs (startOfDay tz clock + days * msPerDay)) maxTime) as [H|H].
  - contradiction.
  - apply andb_false_r.
Qed.

Lemma withinWindow_days (tz clock days : Z) (c : ParsedCheckout) :
  withinWindow tz clock days c <->
  0 <= localDay tz (date c) - localDay tz clock <= days.
Proof.
  unfold withinWindow. cbv zeta. rewrite !startOfDay_localDay.
  unfold msPerDay. lia.
Qed.

Lemma filter_subsequence {A : Type} (f : A -> bool) (l : list A) :
  subsequence (filter f l) l.
Proof.
  induction l as [|x l IH]; simpl; [constructor|].
  destruct (f x); now constructor.
Qed.

(** C6. Window filter: when the midnight [h] days after today is a time a
    date can hold, the filter keeps exactly the checkouts whose local day
    is today or one of the [h] following days (both ends included), [h]
    being 30 when no horizon is passed, and keeps them in their input
    order; when it is not, the filter keeps nothing. With the clock on
    January 1st at 00:00 and the default horizon, a checkout of January
    31st is kept and one of February 1st is dropped. *)
Theorem C6_upcoming_window (tz now : Z) (days : option Z)
    (checkouts : list ParsedCheckout) (keep : ParsedCheckout -> bool) :
  (forall c, keep c = true <-> withinWindow tz now (daysOrDefault days) c) ->
  (horizonHolds tz now (daysOrDefault days) ->
   filterUpcomingCheckouts tz now checkouts days = filter keep checkouts
   /\ subsequence (filterUpcomingCheckouts tz now checkouts days) checkouts
   /\ (forall c, In c (filterUpcomingCheckouts tz now checkouts days) <->
                 In c checkouts
                 /\ 0 <= localDay tz (date c) - localDay tz now <= daysOrDefault days))
  /\ (~ horizonHolds tz now (daysOrDefault days) ->
      filterUpcomingCheckouts tz now checkouts days = [])
  /\ daysOrDefault None = 30
  /\ filterUpcomingCheckouts 0 Sample.jan1
       [Sample.checkoutAt Sample.feb1; Sample.checkoutAt Sample.jan31;
        Sample.checkoutAt Sample.jan1; Sample.checkoutAt (Sample.jan1 - 1)] None
     = [Sample.checkoutAt Sample.jan31; Sample.checkoutAt Sample.jan1].
Proof.
  intros Hkeep. split; [|split; [|split]].
  - intros Hvalid. split; [|split].
    + unfold filterUpcomingCheckouts. apply filter_ext. intros c.
      destruct (keep c) eqn:E.
      * now apply isUpcoming_iff, Hkeep.
      * destruct (isUpcoming tz now (daysOrDefault days) c) eqn:E'; [|reflexivity].
        apply isUpcoming_true, Hkeep in E'. congruence.
    + apply filter_subsequence.
    + intros c. unfold filterUpcomingCheckouts.
      rewrite filter_In, (isUpcoming_iff _ _ _ _ Hvalid), withinWindow_days. reflexivity.
  - intros Hno. unfold filterUpcomingCheckouts.
    induction checkouts as [|c r IH]; [reflexivity|].
    cbn [filter]. now rewrite (isUpcoming_beyond _ _ _ _ Hno).
  - reflexivity.
  - reflexivity.
Qed.

Lemma sample_horizon_holds : horizonHolds 0 Sample.jan1 30.
Proof. unfold horizonHolds. vm_compute. discriminate. Qed.

Lemma C6_upcoming_window_witness :
  (forall c, isUpcoming 0 Sample.jan1 30 c = true <-> withinWindow 0 Sample.jan1 30 c)
  /\ horizonHolds 0 Sample.jan1 30
  /\ filterUpcomingCheckouts 0 Sample.jan1
       [Sample.checkoutAt Sample.feb1; Sample.checkoutAt Sample.jan31] None
     = filter (isUpcoming 0 Sample.jan1 30)
         [Sample.checkoutAt Sample.feb1; Sample.checkoutAt Sample.jan31].
Proof.
  split; [exact (fun c => isUpcoming_iff 0 Sample.jan1 30 c sample_horizon_holds)|].
  split; [exact sample_horizon_holds|].
  exact (proj1 (proj1 (C6_upcoming_window 0 Sample.jan1 None
                         [Sample.checkoutAt Sample.feb1; Sample.checkoutAt Sample.jan31]
                         (isUpcoming 0 Sample.jan1 30)
                         (fun c => isUpcoming_iff 0 Sample.jan1 30 c sample_horizon_holds))
                  sample_horizon_holds)).
Defined.

(** The claim without the proviso fails: at a horizon of 100,000,000 days
    the midnight that far ahead is not a date, every comparison with it is
    false, and a checkout of today, which lies in the window, is dropped. *)
Lemma C6_counterexample :
  ~ (forall (tz now : Z) (days : option Z) (checkouts : list ParsedCheckout)
            (c : ParsedCheckout),
       In c (filterUpcomingCheckouts tz now checkouts days) <->
       In c checkouts /\ withinWindow tz now (daysOrDefault days) c).
Proof.
  intros H.
  destruct (H 0 Sample.jan1 (Some 100000000) [Sample.checkoutAt Sample.jan1]
              (Sample.checkoutAt Sample.jan1)) as [_ Hin].
  apply Hin. split; [now left|].
  unfold withinWindow. vm_compute. split; discriminate.
Qed.

(** The boundary at any clock and in any zone: day 30 is inside the default
    window, day 31 is outside, and so is yesterday. *)
Lemma window_boundary (tz now : Z) (c : ParsedCheckout) :
  horizonHolds tz now 30 ->
  (localDay tz (date c) = localDay tz now + 30 -> isUpcoming tz now 30 c = true)
  /\ (localDay tz (date c) = localDay tz now + 31 -> isUpcoming tz now 30 c = false)
  /\ (localDay tz (date c) = localDay tz now - 1 -> isUpcoming tz now 30 c = false).
Proof.
  intros Hvalid.
  pose proof (isUpcoming_iff tz now 30 c Hvalid) as H.
  rewrite withinWindow_days in H.
  destruct (isUpcoming tz now 30 c); repeat split; intros; try reflexivity;
    try (apply H; lia); try (exfalso; assert (true = true) as E by reflexivity;
                             apply H in E; lia).
Qed.

(** ** The parser *)

Lemma parseVEvents_In (vevents : list VEvent) (v : VEvent) (e : ICalEvent) :
  In v vevents -> parseVEvent v = Some e -> In e (parseVEvents vevents).
Proof.
  induction vevents as [|x r IH]; simpl; [tauto|].
  intros [->|Hin] Hv.
  - rewrite Hv. now left.
  - destruct (parseVEvent x); [right|]; now apply IH.
Qed.

Lemma parseVEvents_length (vevents : list VEvent) :
  List.length (parseVEvents vevents)
  = List.length (filter (fun v => match parseVEvent v with Some _ => true | None => false end)
                        vevents).
Proof.
  induction vevents as [|x r IH]; simpl; [reflexivity|].
  destruct (parseVEvent x); simpl; now rewrite IH.
Qed.

(** C10. An entry with a start time and no summary is parsed to an event
    labelled "Untitled Event" whose end is the entry's end, or its start
    when the entry has no end; that label is not blocked, so the extractor
    produces a checkout for the event, dated at its end. *)
Theorem C10_untitled_entry_is_a_booking (tz : Z)
    (ICAL_parse : string -> option (list VEvent)) (icalData : string)
    (vevents : list VEvent) (f : VEventFields) (startDate : Z) :
  ICAL_parse icalData = Some vevents ->
  In (Entry f) vevents ->
  v_summary f = None ->
  v_startDate f = Some startDate ->
  exists events e c,
    parseICalData ICAL_parse icalData = Exc.Return events
    /\ In e events
    /\ summary e = "Untitled Event"%string
    /\ start e = startDate
    /\ end_ e = match v_endDate f with Some endDate => endDate | None => startDate end
    /\ ~ blockedLabel (summary e)
    /\ In c (extractCheckouts tz events)
    /\ event c = e /\ date c = end_ e.
Proof.
  intros Hparse Hin Hsum Hstart.
  set (e := {| uid := orDefault (v_uid f) EmptyString;
               summary := "Untitled Event";
               description := orDefault (v_description f) EmptyString;
               start := startDate;
               end_ := match v_endDate f with Some endDate => endDate | None => startDate end;
               location := orDefault (v_location f) EmptyString |}).
  assert (He : parseVEvent (Entry f) = Some e).
  { unfold parseVEvent. now rewrite Hsum, Hstart. }
  assert (Hb : isBlocked e = false) by reflexivity.
  assert (Hine : In e (parseVEvents vevents)) by (eapply parseVEvents_In; eauto).
  destruct (extractCheckouts_covers tz _ e Hine Hb) as (c & Hc & Hev & Hd).
  exists (parseVEvents vevents), e, c.
  unfold parseICalData. rewrite Hparse.
  repeat split; try reflexivity; try assumption.
  now apply isBlocked_false_iff.
Qed.

Lemma C10_untitled_entry_is_a_booking_witness :
  let f := {| v_uid := None; v_summary := None; v_description := None;
              v_location := None; v_startDate := Some 1705071600000;
              v_endDate := Some 1705316400000 |} in
  exists events e c,
    parseICalData (fun _ => Some [Malformed; Entry f]) "BEGIN:VCALENDAR"
    = Exc.Return events
    /\ In e events
    /\ summary e = "Untitled Event"%string
    /\ start e = 1705071600000
    /\ end_ e = 1705316400000
    /\ ~ blockedLabel (summary e)
    /\ In c (extractCheckouts 0 events)
    /\ event c = e /\ date c = end_ e.
Proof.
  intros f.
  exact (C10_untitled_entry_is_a_booking 0 (fun _ => Some [Malformed; Entry f])
           "BEGIN:VCALENDAR" [Malformed; Entry f] f 1705071600000
           eq_refl (or_intror (or_introl eq_refl)) eq_refl eq_refl).
Defined.

(** ** The date key of a job *)

Lemma splitHead_avoids (sep : ascii) (a b : string) :
  avoids sep a -> splitHead sep (a ++ String sep b) = a.
Proof.
  induction a as [|c a IH]; simpl.
  - intros _. now rewrite Ascii.eqb_refl.
  - intros [Hc Ha]. destruct (Ascii.eqb_spec c sep); [contradiction|].
    now rewrite IH.
Qed.

Lemma avoids_app (sep : ascii) (a b : string) :
  avoids sep a -> avoids sep b -> avoids sep (a ++ b).
Proof. induction a; simpl; tauto. Qed.

Lemma digit_not_T (n : Z) : digit n <> "T"%char.
Proof.
  unfold digit. pose proof (Z.mod_pos_bound n 10 eq_refl) as H.
  assert (Hr : n mod 10 = 0 \/ n mod 10 = 1 \/ n mod 10 = 2 \/ n mod 10 = 3
               \/ n mod 10 = 4 \/ n mod 10 = 5 \/ n mod 10 = 6 \/ n mod 10 = 7
               \/ n mod 10 = 8 \/ n mod 10 = 9) by lia.
  repeat destruct Hr as [Hr|Hr]; rewrite Hr; discriminate.
Qed.

#[local] Hint Resolve digit_not_T : sync.

Lemma pad2_avoids (n : Z) : avoids "T" (pad2 n).
Proof. unfold pad2; simpl; auto with sync. Qed.

Lemma pad4_avoids (n : Z) : avoids "T" (pad4 n).
Proof. unfold pad4, pad3, pad2; simpl; repeat split; auto with sync. Qed.

Lemma pad6_avoids (n : Z) : avoids "T" (pad6 n).
Proof. unfold pad6, pad4, pad3, pad2; simpl; repeat split; auto with sync. Qed.

Lemma yearString_avoids (y : Z) : avoids "T" (yearString y).
Proof.
  unfold yearString.
  destruct ((0 <=? y) && (y <=? 9999)); [apply pad4_avoids|].
  destruct (y <? 0); simpl; (split; [discriminate | apply pad6_avoids]).
Qed.

Lemma dateString_avoids (days : Z) : avoids "T" (dateString days).
Proof.
  unfold dateString. destruct (civilFromDays days) as [[y m] d].
  apply avoids_app; [apply yearString_avoids|].
  simpl. repeat split; auto with sync; discriminate.
Qed.

(** The key is the UTC calendar date of the instant. *)
Lemma dateKey_dateString (t : Z) : dateKey t = dateString (Day t).
Proof.
  unfold dateKey, toISOString. apply splitHead_avoids, dateString_avoids.
Qed.

Lemma dateKey_same_day (t t' : Z) : Day t = Day t' -> dateKey t = dateKey t'.
Proof. intros H. now rewrite !dateKey_dateString, H. Qed.

Example dateKey_examples :
  dateKey 1717200000000 = "2024-06-01"%string
  /\ dateKey 1717250400000 = "2024-06-01"%string
  /\ toISOString 1717250400000 = "2024-06-01T14:00:00.000Z"%string
  /\ dateKey (-1) = "1969-12-31"%string.
Proof. repeat split; reflexivity. Qed.

(** ** The job loop *)

Lemma hasJob_app (p k : string) (l l' : list CleaningJob) :
  hasJob p k (l ++ l') = hasJob p k l || hasJob p k l'.
Proof.
  unfold hasJob, selectJobs. rewrite filter_app, length_app.
  destruct (List.length (filter _ l)), (List.length (filter _ l')); reflexivity.
Qed.

Lemma hasJob_single (p k : string) (j : CleaningJob) :
  hasJob p k [j] = String.eqb (job_property_id j) p && String.eqb (checkout_date j) k.
Proof.
  unfold hasJob, selectJobs. simpl.
  now destruct (String.eqb (job_property_id j) p && String.eqb (checkout_date j) k).
Qed.

Lemma hasJob_true_iff (p k : string) (jobs : list CleaningJob) :
  hasJob p k jobs = true <->
  exists j, In j jobs /\ job_property_id j = p /\ checkout_date j = k.
Proof.
  unfold hasJob, selectJobs. split.
  - intros H. destruct (filter _ jobs) as [|j r] eqn:E; [discriminate|].
    assert (Hj : In j (j :: r)) by now left.
    rewrite <- E in Hj. apply filter_In in Hj as [Hin Hj].
    apply andb_true_iff in Hj as [H1 H2].
    apply String.eqb_eq in H1, H2. now exists j.
  - intros (j & Hin & H1 & H2).
    assert (Hj : In j (filter (fun j => String.eqb (job_property_id j) p
                                        && String.eqb (checkout_date j) k) jobs)).
    { apply filter_In. split; [exact Hin|].
      apply andb_true_iff. now rewrite !String.eqb_eq. }
    destruct (filter _ jobs); [contradiction | reflexivity].
Qed.

Lemma jobKeys_hasJob (p k : string) (jobs : list CleaningJob) :
  existsb (String.eqb k) (jobKeys p jobs) = hasJob p k jobs.
Proof.
  unfold jobKeys. induction jobs as [|j r IH]; [reflexivity|].
  change (j :: r) with ([j] ++ r). rewrite hasJob_app, hasJob_single, filter_app, map_app.
  rewrite existsb_app, IH. f_equal. simpl.
  destruct (String.eqb (job_property_id j) p); simpl; [|reflexivity].
  rewrite orb_false_r. apply String.eqb_sym.
Qed.

(** The four branches of one iteration. *)
Ltac loop_cases env i :=
  destruct (checkError env i);
  [| destruct (hasJob _ _ _) eqn:?; [| destruct (insertError env i)]].

Section JobLoop.
Variable env : PropertyEnv.
Variable property : Property.
Variable cleaner : option string.

Let loop := reconcile env property cleaner.

(** The row the loop inserts for a checkout. *)
Let rowOf (c : ParsedCheckout) : CleaningJob :=
  {| job_property_id := id property;
     job_cleaner_id := cleaner;
     checkout_date := dateKey (date c);
     checkin_date := option_map dateKey (next_checkin_date c);
     status := "pending";
     is_same_day_turnaround := has_same_day_checkin c |}.

Lemma reconcile_cons (i : nat) (c : ParsedCheckout) (rest : list ParsedCheckout) (w : World) :
  loop i (c :: rest) w =
  if checkError env i then loop (S i) rest (note CheckFailed w)
  else if hasJob (id property) (dateKey (date c)) (cleaning_jobs (db w))
       then loop (S i) rest (note SkippedExisting w)
       else if insertError env i then loop (S i) rest (note InsertFailed w)
            else loop (S i) rest (note Created (incrJobsCreated (insertJob (rowOf c) w))).
Proof. reflexivity. Qed.

Lemma reconcile_frame (cs : list ParsedCheckout) :
  forall i w,
    properties (db (loop i cs w)) = properties (db w)
    /\ success (result (loop i cs w)) = success (result w)
    /\ error (result (loop i cs w)) = error (result w)
    /\ property_id (result (loop i cs w)) = property_id (result w)
    /\ property_name (result (loop i cs w)) = property_name (result w).
Proof.
  induction cs as [|c rest IH]; intros i w; [now repeat split|].
  rewrite reconcile_cons. loop_cases env i.
  - exact (IH (S i) (note CheckFailed w)).
  - exact (IH (S i) (note SkippedExisting w)).
  - exact (IH (S i) (note InsertFailed w)).
  - exact (IH (S i) (note Created (incrJobsCreated (insertJob (rowOf c) w)))).
Qed.

(** The loop against the store refines the reconciler over the key set. *)
Lemma reconcile_refines (cs : list ParsedCheckout) :
  forall i w keys,
    (forall k, existsb (String.eqb k) keys = hasJob (id property) k (cleaning_jobs (db w))) ->
    log (loop i cs w) = log w ++ outcomes env i keys cs
    /\ exists new,
         cleaning_jobs (db (loop i cs w)) = cleaning_jobs (db w) ++ new
         /\ List.length new = List.length (filter isCreated (outcomes env i keys cs))
         /\ jobs_created (result (loop i cs w))
            = (jobs_created (result w) + List.length new)%nat
         /\ Forall (fun j => hasJob (id property) (checkout_date j) (cleaning_jobs (db w)) = false
                             /\ exists c, In c cs /\ j = rowOf c) new.
Proof.
  induction cs as [|c rest IH]; intros i w keys Hkeys.
  - simpl. rewrite app_nil_r. split; [reflexivity|].
    exists []. rewrite app_nil_r, Nat.add_0_r. repeat split. constructor.
  - rewrite reconcile_cons. cbn [outcomes]. rewrite Hkeys.
    assert (Hweak : forall new : list CleaningJob,
               Forall (fun j => hasJob (id property) (checkout_date j) (cleaning_jobs (db w)) = false
                                /\ exists c0, In c0 rest /\ j = rowOf c0) new ->
               Forall (fun j => hasJob (id property) (checkout_date j) (cleaning_jobs (db w)) = false
                                /\ exists c0, In c0 (c :: rest) /\ j = rowOf c0) new).
    { intros new. apply Forall_impl. intros j (H1 & c0 & H2 & H3).
      split; [exact H1|]. exists c0. split; [now right | exact H3]. }
    destruct (checkError env i).
    { destruct (IH (S i) (note CheckFailed w) keys Hkeys) as (Hlog & new & H1 & H2 & H3 & H4).
      split; [rewrite Hlog; simpl; now rewrite <- app_assoc|].
      exists new. repeat split; auto. }
    destruct (hasJob (id property) (dateKey (date c)) (cleaning_jobs (db w))) eqn:Hhas.
    { destruct (IH (S i) (note SkippedExisting w) keys Hkeys) as (Hlog & new & H1 & H2 & H3 & H4).
      split; [rewrite Hlog; simpl; now rewrite <- app_assoc|].
      exists new. repeat split; auto. }
    destruct (insertError env i).
    { destruct (IH (S i) (note InsertFailed w) keys Hkeys) as (Hlog & new & H1 & H2 & H3 & H4).
      split; [rewrite Hlog; simpl; now rewrite <- app_assoc|].
      exists new. repeat split; auto. }
    set (w1 := note Created (incrJobsCreated (insertJob (rowOf c) w))).
    assert (Hkeys1 : forall k, existsb (String.eqb k) (dateKey (date c) :: keys)
                               = hasJob (id property) k (cleaning_jobs (db w1))).
    { intros k. simpl. rewrite hasJob_app, hasJob_single, Hkeys. simpl.
      rewrite String.eqb_refl, orb_comm. simpl. f_equal. apply String.eqb_sym. }
    destruct (IH (S i) w1 _ Hkeys1) as (Hlog & new & H1 & H2 & H3 & H4).
    split; [rewrite Hlog; simpl; now rewrite <- app_assoc|].
    exists (rowOf c :: new). split; [|split; [|split]].
    + rewrite H1. simpl. now rewrite <- app_assoc.
    + simpl. now rewrite H2.
    + rewrite H3. simpl. lia.
    + constructor.
      * split; [exact Hhas|]. exists c. split; [now left | reflexivity].
      * apply Hweak. revert H4. apply Forall_impl. intros j (Hj & Hc).
        split; [|exact Hc]. simpl in Hj. rewrite hasJob_app in Hj.
        now apply orb_false_iff in Hj.
Qed.

End JobLoop.

Lemma outcomes_length (env : PropertyEnv) (cs : list ParsedCheckout) :
  forall i keys, List.length (outcomes env i keys cs) = List.length cs.
Proof.
  induction cs as [|c rest IH]; intros i keys; [reflexivity|]. cbn [outcomes].
  destruct (checkError env i); [simpl; now rewrite IH|].
  destruct (existsb _ keys); [simpl; now rewrite IH|].
  destruct (insertError env i); simpl; now rewrite IH.
Qed.

Lemma outcomes_created (env : PropertyEnv) (cs : list ParsedCheckout) :
  forall i keys n,
    nth_error (outcomes env i keys cs) n = Some Created ->
    checkError env (i + n) = false /\ insertError env (i + n) = false.
Proof.
  induction cs as [|c rest IH]; intros i keys n; [destruct n; discriminate|].
  cbn [outcomes].
  destruct n as [|n].
  - rewrite Nat.add_0_r.
    destruct (checkError env i); [discriminate|].
    destruct (existsb _ keys); [discriminate|].
    destruct (insertError env i); [discriminate | tauto].
  - replace (i + S n)%nat with (S i + n)%nat by lia.
    destruct (checkError env i); [apply IH|].
    destruct (existsb _ keys); [apply IH|].
    destruct (insertError env i); apply IH.
Qed.

Lemma reconcile_appends (env : PropertyEnv) (property : Property) (cleaner : option string)
    (cs : list ParsedCheckout) (i : nat) (w : World) :
  exists new,
    cleaning_jobs (db (reconcile env property cleaner i cs w)) = cleaning_jobs (db w) ++ new.
Proof.
  destruct (reconcile_refines env property cleaner cs i w
              (jobKeys (id property) (cleaning_jobs (db w)))
              (fun k => jobKeys_hasJob _ k _)) as (_ & new & H & _).
  now exists new.
Qed.

(** One failed insert: the store and the counter are left as they were and
    the loop goes on with the next checkout. *)
Lemma insert_failure_step (env : PropertyEnv) (property : Property) (cleaner : option string)
    (i : nat) (c : ParsedCheckout) (rest : list ParsedCheckout) (w : World) :
  checkError env i = false ->
  hasJob (id property) (dateKey (date c)) (cleaning_jobs (db w)) = false ->
  insertError env i = true ->
  reconcile env property cleaner i (c :: rest) w
  = reconcile env property cleaner (S i) rest (note InsertFailed w).
Proof. intros H1 H2 H3. rewrite reconcile_cons. now rewrite H1, H2, H3. Qed.

(** ** One property *)

Section OneProperty.
Variable tz : Z.
Variable ICAL_parse : string -> option (list VEvent).
Variable env : PropertyEnv.
Variable property : Property.
Variable db0 : Db.

Let w0 : World :=
  {| db := db0;
     result := {| property_id := id property; property_name := name property;
                  success := false; jobs_created := 0; error := None |};
     log := [] |}.

Let stamp : string := toISOString (clockAtSynced env).

Lemma sync_completes (events : list ICalEvent) (cleaners : option (list PropertyCleaner)) :
  parseICalFromUrl ICAL_parse env (ical_url property) = Exc.Return events ->
  cleanersQuery env = QueryData cleaners ->
  syncPropertyWorld tz ICAL_parse env property db0
  = setSuccess
      (updateProperties (id property) (markSynced stamp)
         (reconcile env property (assignedCleaner cleaners) 0 (upcomingOf tz env events) w0)).
Proof.
  intros Hp Hc.
  unfold syncPropertyWorld, Eff.tryCatch, syncBody, Eff.bind, Eff.lift, Eff.modify.
  now rewrite Hp, Hc.
Qed.

Lemma sync_feed_failure (message : string) :
  parseICalFromUrl ICAL_parse env (ical_url property) = Exc.Throw message ->
  syncPropertyWorld tz ICAL_parse env property db0
  = updateProperties (id property) (markSyncError (Some (reported message)))
      (setError (reported message) w0).
Proof.
  intros Hp.
  unfold syncPropertyWorld, Eff.tryCatch, syncBody, Eff.bind, Eff.lift, Eff.modify.
  now rewrite Hp.
Qed.

Lemma sync_cleaners_failure (events : list ICalEvent) (message : string) :
  parseICalFromUrl ICAL_parse env (ical_url property) = Exc.Return events ->
  cleanersQuery env = QueryError message ->
  syncPropertyWorld tz ICAL_parse env property db0
  = updateProperties (id property)
      (markSyncError (Some (reported ("Failed to fetch cleaners: " ++ message)%string)))
      (setError (reported ("Failed to fetch cleaners: " ++ message)%string) w0).
Proof.
  intros Hp Hc.
  unfold syncPropertyWorld, Eff.tryCatch, syncBody, Eff.bind, Eff.lift, Eff.modify, Eff.throw.
  now rewrite Hp, Hc.
Qed.

End OneProperty.

(** C8. A failed insert costs one job only: when the feed and the cleaner
    lookup succeed, the property is reported with [success = true]
    whatever the inserts do; every upcoming checkout gets its outcome, in
    order, as the reconciler over the key set gives it; [jobs_created] is
    the number of [Created] outcomes, which is the number of rows added to
    the store; and a checkout whose insert fails is never counted. *)
Theorem C8_insert_failure_isolated (tz : Z) (ICAL_parse : string -> option (list VEvent))
    (env : PropertyEnv) (property : Property) (db0 : Db)
    (events : list ICalEvent) (cleaners : option (list PropertyCleaner)) :
  parseICalFromUrl ICAL_parse env (ical_url property) = Exc.Return events ->
  cleanersQuery env = QueryData cleaners ->
  let w := syncPropertyWorld tz ICAL_parse env property db0 in
  let upcoming := upcomingOf tz env events in
  success (result w) = true
  /\ error (result w) = None
  /\ log w = outcomes env 0 (jobKeys (id property) (cleaning_jobs db0)) upcoming
  /\ List.length (log w) = List.length upcoming
  /\ jobs_created (result w) = List.length (filter isCreated (log w))
  /\ (exists new, cleaning_jobs (db w) = cleaning_jobs db0 ++ new
                  /\ List.length new = jobs_created (result w))
  /\ (forall i, insertError env i = true -> nth_error (log w) i <> Some Created).
Proof.
  intros Hp Hc w upcoming. subst w.
  rewrite (sync_completes tz ICAL_parse env property db0 events cleaners Hp Hc).
  set (w0 := {| db := db0; result := _; log := [] |}).
  destruct (reconcile_refines env property (assignedCleaner cleaners) upcoming 0 w0
              (jobKeys (id property) (cleaning_jobs db0))
              (fun k => jobKeys_hasJob _ k _)) as (Hlog & new & Hjobs & Hlen & Hcount & _).
  destruct (reconcile_frame env property (assignedCleaner cleaners) upcoming 0 w0)
    as (_ & _ & Herr & _).
  fold upcoming. cbn [setSuccess updateProperties result db log success error
                      cleaning_jobs jobs_created].
  simpl in Hlog. rewrite Hlog.
  split; [reflexivity|]. split; [exact Herr|]. split; [reflexivity|].
  split; [apply outcomes_length|].
  split; [rewrite Hcount, Hlen; reflexivity|].
  split.
  - exists new. split; [exact Hjobs|]. now rewrite Hcount.
  - intros i Hi Hnth. apply outcomes_created in Hnth as [_ Hnth].
    simpl in Hnth. congruence.
Qed.

Lemma C8_insert_failure_isolated_witness :
  let env := Sample.world Sample.firstInsertFails (Sample.property "1") in
  let w := syncPropertyWorld 0 Sample.feed env (Sample.property "1") Sample.emptyDb in
  success (result w) = true
  /\ log w = [InsertFailed; Created]
  /\ jobs_created (result w) = 1%nat
  /\ map checkout_date (cleaning_jobs (db w)) = ["2024-01-15"%string].
Proof.
  intros env w.
  destruct (C8_insert_failure_isolated 0 Sample.feed env (Sample.property "1")
              Sample.emptyDb
              [Sample.booking "Booking A" 1704895200000 1705057200000;
               Sample.booking "Booking B" 1705071600000 1705316400000]
              Sample.cleaners) as (Hs & _).
  - vm_compute. reflexivity.
  - reflexivity.
  - split; [exact Hs|]. vm_compute. repeat split; reflexivity.
Defined.

(** C2. Date-only key: while the store holds a job of the property whose
    [checkout_date] is the date of day [D] (the UTC day of [t]), a checkout
    at any instant of day [D] creates nothing: its iteration leaves the
    store and the counter as they were, and no row appended by the loop
    belongs to a checkout of day [D], whatever the time of day. *)
Theorem C2_date_only_dedup_key (env : PropertyEnv) (property : Property)
    (cleaner : option string) (w : World) (j : CleaningJob) (t : Z) :
  In j (cleaning_jobs (db w)) ->
  job_property_id j = id property ->
  checkout_date j = dateKey t ->
  (forall i c rest, Day (date c) = Day t ->
     reconcile env property cleaner i (c :: rest) w
     = reconcile env property cleaner (S i) rest
         (note (if checkError env i then CheckFailed else SkippedExisting) w))
  /\ (forall i cs, exists new,
        cleaning_jobs (db (reconcile env property cleaner i cs w))
        = cleaning_jobs (db w) ++ new
        /\ Forall (fun j' => exists c, In c cs
                                       /\ job_property_id j' = id property
                                       /\ checkout_date j' = dateKey (date c)
                                       /\ Day (date c) <> Day t) new).
Proof.
  intros Hin Hp Hk.
  assert (Hhas : forall t', Day t' = Day t ->
                   hasJob (id property) (dateKey t') (cleaning_jobs (db w)) = true).
  { intros t' Ht'. apply hasJob_true_iff. exists j.
    split; [exact Hin|]. split; [exact Hp|].
    rewrite Hk. symmetry. now apply dateKey_same_day. }
  split.
  - intros i c rest Hc. rewrite reconcile_cons, (Hhas _ Hc).
    now destruct (checkError env i).
  - intros i cs.
    destruct (reconcile_refines env property cleaner cs i w
                (jobKeys (id property) (cleaning_jobs (db w)))
                (fun k => jobKeys_hasJob _ k _)) as (_ & new & Hjobs & _ & _ & Hnew).
    exists new. split; [exact Hjobs|].
    revert Hnew. apply Forall_impl. intros j' (Hfresh & c & Hc & ->).
    exists c. cbn [job_property_id checkout_date] in *.
    split; [exact Hc|]. split; [reflexivity|]. split; [reflexivity|].
    intros Hday. rewrite (Hhas _ Hday) in Hfresh. discriminate.
Qed.

Lemma C2_date_only_dedup_key_witness :
  let property := Sample.property "1" in
  let env := Sample.world Sample.noFault property in
  let w := {| db := {| properties := [property];
                       cleaning_jobs := [Sample.job "1" (dateKey Sample.june1)] |};
              result := {| property_id := "1"; property_name := "Flat";
                           success := false; jobs_created := 0; error := None |};
              log := [] |} in
  reconcile env property None 0 [Sample.checkoutAt Sample.june1_afternoon] w
  = note SkippedExisting w.
Proof.
  intros property env w.
  exact (proj1 (C2_date_only_dedup_key env property None w
                  (Sample.job "1" (dateKey Sample.june1)) Sample.june1
                  (or_introl eq_refl) eq_refl eq_refl)
           0%nat (Sample.checkoutAt Sample.june1_afternoon) [] eq_refl).
Defined.

(** The key of the sample job is the date alone, and a job of the day
    before does not stand in the way. *)
Example date_key_examples :
  dateKey Sample.june1 = "2024-06-01"%string
  /\ dateKey Sample.june1_afternoon = "2024-06-01"%string
  /\ map checkout_date
       (cleaning_jobs
          (db (reconcile (Sample.world Sample.noFault (Sample.property "1"))
                 (Sample.property "1") None 0
                 [Sample.checkoutAt Sample.june1_afternoon]
                 {| db := {| properties := [];
                             cleaning_jobs := [Sample.job "1" "2024-05-31"] |};
                    result := {| property_id := "1"; property_name := "Flat";
                                 success := false; jobs_created := 0; error := None |};
                    log := [] |})))
     = ["2024-05-31"%string; "2024-06-01"%string].
Proof. repeat split; reflexivity. Qed.

(** ** Running the sync again *)

Section Again.
Variable env : PropertyEnv.
Variable property : Property.
Variable cleaner : option string.

Let loop := reconcile env property cleaner.

Lemma reconcile_keeps_jobs (cs : list ParsedCheckout) (i : nat) (w : World) (k : string) :
  hasJob (id property) k (cleaning_jobs (db w)) = true ->
  hasJob (id property) k (cleaning_jobs (db (loop i cs w))) = true.
Proof.
  intros H. unfold loop.
  destruct (reconcile_appends env property cleaner cs i w) as [new ->].
  rewrite hasJob_app, H. reflexivity.
Qed.

(** Without a failing query or insert, every checkout has its job in the
    store when the loop ends. *)
Lemma reconcile_covers (cs : list ParsedCheckout) :
  (forall i, checkError env i = false) ->
  (forall i, insertError env i = false) ->
  forall i w c, In c cs ->
    hasJob (id property) (dateKey (date c)) (cleaning_jobs (db (loop i cs w))) = true.
Proof.
  intros Hcheck Hinsert.
  induction cs as [|c0 rest IH]; intros i w c Hin; [destruct Hin|].
  unfold loop. rewrite reconcile_cons, Hcheck, Hinsert. fold loop.
  destruct (hasJob (id property) (dateKey (date c0)) (cleaning_jobs (db w))) eqn:Hhas.
  - destruct Hin as [<-|Hin]; [|now apply IH].
    now apply reconcile_keeps_jobs.
  - destruct Hin as [<-|Hin]; [|now apply IH].
    apply reconcile_keeps_jobs. simpl.
    rewrite hasJob_app, hasJob_single. simpl.
    now rewrite !String.eqb_refl, orb_true_r.
Qed.

(** When every checkout already has its job, the loop changes neither the
    store nor the result. *)
Lemma reconcile_all_present (cs : list ParsedCheckout) :
  forall i w,
    (forall c, In c cs ->
       hasJob (id property) (dateKey (date c)) (cleaning_jobs (db w)) = true) ->
    db (loop i cs w) = db w
    /\ result (loop i cs w) = result w
    /\ log (loop i cs w)
       = log w ++ map (fun n => if checkError env n then CheckFailed else SkippedExisting)
                      (seq i (List.length cs)).
Proof.
  induction cs as [|c rest IH]; intros i w Hall.
  - simpl. now rewrite app_nil_r.
  - unfold loop. rewrite reconcile_cons, (Hall c (or_introl eq_refl)). fold loop.
    assert (Hrest : forall o c', In c' rest ->
              hasJob (id property) (dateKey (date c')) (cleaning_jobs (db (note o w))) = true).
    { intros o c' Hc'. apply Hall. now right. }
    cbn [List.length seq map].
    destruct (checkError env i).
    + destruct (IH (S i) (note CheckFailed w) (Hrest CheckFailed)) as (Hd & Hr & Hl).
      rewrite Hd, Hr, Hl. simpl. now rewrite <- app_assoc.
    + destruct (IH (S i) (note SkippedExisting w) (Hrest SkippedExisting)) as (Hd & Hr & Hl).
      rewrite Hd, Hr, Hl. simpl. now rewrite <- app_assoc.
Qed.

End Again.

Lemma hasJob_incl (p k : string) (jobs jobs' : list CleaningJob) :
  incl jobs jobs' -> hasJob p k jobs = true -> hasJob p k jobs' = true.
Proof.
  intros Hincl H. apply hasJob_true_iff in H as (j & Hin & H1 & H2).
  apply hasJob_true_iff. exists j. split; [now apply Hincl | tauto].
Qed.

Lemma upcomingOf_same_day (tz : Z) (env env' : PropertyEnv) (events : list ICalEvent) :
  startOfDay tz (clockAtFilter env') = startOfDay tz (clockAtFilter env) ->
  upcomingOf tz env' events = upcomingOf tz env events.
Proof.
  intros H. unfold upcomingOf, filterUpcomingCheckouts. apply filter_ext.
  intros c. unfold isUpcoming. now rewrite H.
Qed.

(** C1. Idempotence: let a first sync of a property run without a failing
    query or insert, and let its jobs still be in the store. A second sync
    of the same property on the same parsed feed, in whose window no
    checkout lies that was outside the window of the first (as when both
    run on the same local day), creates no job and leaves the job table as
    it is: every iteration ends as [SkippedExisting] (or [CheckFailed] if
    its existence query fails), and all of them as [SkippedExisting] when
    the queries of the second run succeed. *)
Theorem C1_idempotent_sync (tz : Z) (ICAL_parse : string -> option (list VEvent))
    (env1 env2 : PropertyEnv) (p1 p2 : Property) (db0 db1 : Db)
    (events : list ICalEvent) (cleaners1 : option (list PropertyCleaner)) :
  parseICalFromUrl ICAL_parse env1 (ical_url p1) = Exc.Return events ->
  parseICalFromUrl ICAL_parse env2 (ical_url p2) = Exc.Return events ->
  id p2 = id p1 ->
  incl (upcomingOf tz env2 events) (upcomingOf tz env1 events) ->
  cleanersQuery env1 = QueryData cleaners1 ->
  (forall i, checkError env1 i = false) ->
  (forall i, insertError env1 i = false) ->
  incl (cleaning_jobs (db (syncPropertyWorld tz ICAL_parse env1 p1 db0)))
       (cleaning_jobs db1) ->
  let w2 := syncPropertyWorld tz ICAL_parse env2 p2 db1 in
  jobs_created (result w2) = 0%nat
  /\ cleaning_jobs (db w2) = cleaning_jobs db1
  /\ Forall (fun o => o = SkippedExisting \/ o = CheckFailed) (log w2)
  /\ (forall cleaners2,
        cleanersQuery env2 = QueryData cleaners2 ->
        (forall i, checkError env2 i = false) ->
        log w2 = repeat SkippedExisting (List.length (upcomingOf tz env2 events))).
Proof.
  intros Hfeed1 Hfeed2 Hid Hday Hcl1 Hcheck1 Hinsert1 Hkept w2. subst w2.
  rewrite (sync_completes tz ICAL_parse env1 p1 db0 events cleaners1 Hfeed1 Hcl1) in Hkept.
  cbn [setSuccess updateProperties db cleaning_jobs] in Hkept.
  assert (Hall : forall w, db w = db1 -> forall c, In c (upcomingOf tz env2 events) ->
            hasJob (id p2) (dateKey (date c)) (cleaning_jobs (db w)) = true).
  { intros w -> c Hc. apply Hday in Hc.
    rewrite Hid. apply (hasJob_incl _ _ _ _ Hkept).
    now apply reconcile_covers. }
  destruct (cleanersQuery env2) as [cleaners2|message] eqn:Hcl2.
  - rewrite (sync_completes tz ICAL_parse env2 p2 db1 events cleaners2 Hfeed2 Hcl2).
    set (w0 := {| db := db1; result := _; log := [] |}).
    destruct (reconcile_all_present env2 p2 (assignedCleaner cleaners2)
                (upcomingOf tz env2 events) 0 w0 (Hall w0 eq_refl)) as (Hdb & Hres & Hlog).
    cbn [setSuccess updateProperties db cleaning_jobs result jobs_created log].
    rewrite Hdb, Hres, Hlog. cbn [w0 db result jobs_created cleaning_jobs log app].
    split; [reflexivity|]. split; [reflexivity|]. split.
    + apply Forall_forall. intros o Ho. apply in_map_iff in Ho as (n & <- & _).
      destruct (checkError env2 n); tauto.
    + intros _ _ Hcheck2.
      rewrite (map_ext _ (fun _ => SkippedExisting)) by (intros n; now rewrite Hcheck2).
      now rewrite map_const, length_seq.
  - rewrite (sync_cleaners_failure tz ICAL_parse env2 p2 db1 events message Hfeed2 Hcl2).
    cbn. repeat split; try constructor. intros ? Habs. discriminate.
Qed.

Lemma C1_idempotent_sync_witness :
  let p := Sample.property "1" in
  let env := Sample.world Sample.noFault p in
  let w1 := syncPropertyWorld 0 Sample.feed env p Sample.emptyDb in
  let w2 := syncPropertyWorld 0 Sample.feed env p (db w1) in
  jobs_created (result w1) = 2%nat
  /\ jobs_created (result w2) = 0%nat
  /\ cleaning_jobs (db w2) = cleaning_jobs (db w1)
  /\ log w2 = [SkippedExisting; SkippedExisting].
Proof.
  intros p env w1 w2.
  assert (Hfeed : parseICalFromUrl Sample.feed env (ical_url p)
                  = Exc.Return [Sample.bookingA; Sample.bookingB]) by reflexivity.
  destruct (C1_idempotent_sync 0 Sample.feed env env p p Sample.emptyDb (db w1)
              [Sample.bookingA; Sample.bookingB] Sample.cleaners
              Hfeed Hfeed eq_refl (incl_refl _) eq_refl
              (fun _ => eq_refl) (fun _ => eq_refl) (incl_refl _))
    as (Hcount & Hjobs & _ & Hlog).
  split; [reflexivity|]. split; [exact Hcount|]. split; [exact Hjobs|].
  exact (Hlog Sample.cleaners eq_refl (fun _ => eq_refl)).
Defined.

(** Two runs on the same local day have the same window. *)
Lemma same_day_same_window (tz : Z) (env1 env2 : PropertyEnv) (events : list ICalEvent) :
  startOfDay tz (clockAtFilter env2) = startOfDay tz (clockAtFilter env1) ->
  incl (upcomingOf tz env2 events) (upcomingOf tz env1 events).
Proof.
  intros Hday. rewrite (upcomingOf_same_day tz env1 env2 events Hday). apply incl_refl.
Qed.

(** Without those provisos a second run on an unchanged feed does create
    jobs. A stay ending on February 10th, synced at 21:00 on January 10th
    and again six hours later: the first run succeeds and creates nothing,
    that checkout being 31 days ahead; the second creates its job. And when
    the cleaner lookup, the existence queries or an insert of the first run
    fail, the jobs that run left out are created by the second. *)
Lemma C1_counterexample :
  let p := Sample.property "1" in
  let parse := fun _ : string =>
    Some [Sample.entry (Some "Booking C"%string) 1707314400000 (Some 1707562800000)] in
  let at_ (clock : Z) (cleaners : QueryResult (option (list PropertyCleaner)))
          (check insert : nat -> bool) : PropertyEnv :=
    {| fetch := fun _ => Sample.respond 200 "OK"; cleanersQuery := cleaners;
       checkError := check; insertError := insert;
       clockAtFilter := clock; clockAtSynced := clock |} in
  let healthy := QueryData Sample.cleaners in
  let never := fun _ : nat => false in
  let evening := at_ 1704920400000 healthy never never in
  let night := at_ 1704942000000 healthy never never in
  let w1 := syncPropertyWorld 0 parse evening p Sample.emptyDb in
  let w2 := syncPropertyWorld 0 parse night p (db w1) in
  let lookupDown := at_ 1704895200000 (QueryError "timeout"%string) never never in
  let checkDown := at_ 1704895200000 healthy (fun _ => true) never in
  let insertDown := at_ 1704895200000 healthy never Sample.firstInsertFails in
  let again := at_ 1704895200000 healthy never never in
  let second (first : PropertyEnv) :=
    syncPropertyWorld 0 Sample.feed again p
      (db (syncPropertyWorld 0 Sample.feed first p Sample.emptyDb)) in
  (parseICalFromUrl parse evening (ical_url p) = parseICalFromUrl parse night (ical_url p)
   /\ success (result w1) = true
   /\ jobs_created (result w1) = 0%nat
   /\ jobs_created (result w2) = 1%nat
   /\ log w2 = [Created])
  /\ jobs_created (result (second lookupDown)) = 2%nat
  /\ jobs_created (result (second checkDown)) = 2%nat
  /\ jobs_created (result (second insertDown)) = 1%nat.
Proof. repeat split; reflexivity. Qed.

(** On a later day the window has moved, and a checkout that has entered
    it gets its job then. *)
Example later_day_creates_the_new_checkout :
  let p := Sample.property "1" in
  let parse := fun _ : string => Some [Sample.entry (Some "Booking C"%string) 1707487200000
                                                    (Some 1707735600000)] in
  let today := Sample.world Sample.noFault p in
  let later := {| fetch := fetch today; cleanersQuery := cleanersQuery today;
                  checkError := checkError today; insertError := insertError today;
                  clockAtFilter := clockAtFilter today + 5 * msPerDay;
                  clockAtSynced := clockAtSynced today + 5 * msPerDay |} in
  let w1 := syncPropertyWorld 0 parse today p Sample.emptyDb in
  let w2 := syncPropertyWorld 0 parse later p (db w1) in
  jobs_created (result w1) = 0%nat /\ jobs_created (result w2) = 1%nat.
Proof. split; reflexivity. Qed.

(** ** The sync markers *)

Lemma Forall2_map_self {A : Type} (R : A -> A -> Prop) (f : A -> A) (l : list A) :
  (forall x, R x (f x)) -> Forall2 R l (map f l).
Proof. intros H. induction l; simpl; constructor; auto. Qed.

(** C9. Sync markers: after the sync of a property, every row of the
    property table keeps all its other columns; rows of other properties
    are unchanged; on the rows of the synced property, a successful pass
    sets [last_synced] to the time of the update and [sync_error] to null,
    and a failed pass stores the reported error in [sync_error] and leaves
    [last_synced] as it was. *)
Theorem C9_sync_markers (tz : Z) (ICAL_parse : string -> option (list VEvent))
    (env : PropertyEnv) (property : Property) (db0 : Db) :
  let w := syncPropertyWorld tz ICAL_parse env property db0 in
  Forall2
    (fun r r' =>
       sameOtherColumns r r'
       /\ (id r <> id property -> r' = r)
       /\ (id r = id property ->
           if success (result w)
           then last_synced r' = Some (toISOString (clockAtSynced env))
                /\ sync_error r' = None
           else last_synced r' = last_synced r
                /\ sync_error r' = error (result w)
                /\ error (result w) <> None))
    (properties db0) (properties (db w)).
Proof.
  intros w. subst w.
  assert (Hfail : forall message,
            Forall2
              (fun r r' =>
                 sameOtherColumns r r'
                 /\ (id r <> id property -> r' = r)
                 /\ (id r = id property ->
                     last_synced r' = last_synced r
                     /\ sync_error r' = Some (reported message)
                     /\ Some (reported message) <> None))
              (properties db0)
              (map (fun r => if String.eqb (id r) (id property)
                             then markSyncError (Some (reported message)) r else r)
                   (properties db0))).
  { intros message. apply Forall2_map_self. intros r.
    destruct (String.eqb_spec (id r) (id property)) as [He|Hne].
    - unfold sameOtherColumns. simpl. repeat split; try congruence; discriminate.
    - unfold sameOtherColumns. repeat split; try reflexivity; contradiction. }
  destruct (parseICalFromUrl ICAL_parse env (ical_url property)) as [events|message] eqn:Hp.
  - destruct (cleanersQuery env) as [cleaners|message] eqn:Hc.
    + rewrite (sync_completes tz ICAL_parse env property db0 events cleaners Hp Hc).
      cbn [setSuccess updateProperties db properties result success].
      match goal with
      | |- context [reconcile ?e ?p ?c ?i ?cs ?w0] =>
          destruct (reconcile_frame e p c cs i w0) as (Hprops & _)
      end.
      rewrite Hprops. cbn [db properties].
      apply Forall2_map_self. intros r.
      destruct (String.eqb_spec (id r) (id property)) as [He|Hne].
      * unfold sameOtherColumns. simpl. repeat split; congruence.
      * unfold sameOtherColumns. repeat split; try reflexivity; contradiction.
    + rewrite (sync_cleaners_failure tz ICAL_parse env property db0 events message Hp Hc).
      cbn [setError updateProperties db properties result success error].
      apply Hfail.
  - rewrite (sync_feed_failure tz ICAL_parse env property db0 message Hp).
    cbn [setError updateProperties db properties result success error].
    apply Hfail.
Qed.

(** The sample run: the first property is marked synced and its stale error
    is cleared; the second keeps its marker and records the failure. *)
Example sync_marker_examples :
  let db1 := snd (syncProperty 0 Sample.feed (Sample.world Sample.noFault (Sample.property "1"))
                    (Sample.property "1") Sample.emptyDb) in
  let db2 := snd (syncProperty 0 Sample.feed (Sample.world Sample.noFault (Sample.property "2"))
                    (Sample.property "2") Sample.emptyDb) in
  map (fun r => (id r, last_synced r, sync_error r)) (properties db1)
  = [("1", Some "2024-01-10T14:01:00.000Z", None);
     ("2", None, Some "stale"); ("3", None, Some "stale")]%string
  /\ map (fun r => (id r, last_synced r, sync_error r)) (properties db2)
     = [("1", None, Some "stale");
        ("2", None, Some "Failed to fetch iCal: 500 Internal Server Error");
        ("3", None, Some "stale")]%string.
Proof. split; reflexivity. Qed.

(** ** All properties *)

Lemma reconcile_jobs_only (env : PropertyEnv) (property : Property) (cleaner : option string)
    (cs : list ParsedCheckout) :
  forall i w w',
    cleaning_jobs (db w) = cleaning_jobs (db w') ->
    result w = result w' ->
    log w = log w' ->
    cleaning_jobs (db (reconcile env property cleaner i cs w))
    = cleaning_jobs (db (reconcile env property cleaner i cs w'))
    /\ result (reconcile env property cleaner i cs w)
       = result (reconcile env property cleaner i cs w')
    /\ log (reconcile env property cleaner i cs w)
       = log (reconcile env property cleaner i cs w').
Proof.
  induction cs as [|c rest IH]; intros i w w' Hjobs Hres Hlog; [now repeat split|].
  rewrite !reconcile_cons, <- Hjobs.
  loop_cases env i; apply IH; simpl; congruence.
Qed.

Section AllProperties.
Variable tz : Z.
Variable ICAL_parse : string -> option (list VEvent).

Lemma feedFailure_iff (env : PropertyEnv) (url message : string) :
  parseICalFromUrl ICAL_parse env url = Exc.Throw message
  <-> feedFailure ICAL_parse env url message.
Proof.
  unfold parseICalFromUrl, parseICalData. split.
  - destruct (fetch env (replaceWebcal url)) as [m|r] eqn:Hf.
    + intros [= <-]. now constructor.
    + destruct (ok r) eqn:Hok; cbn [negb].
      * destruct (isBlank (http_text r)) eqn:Hb.
        -- intros [= <-]. now apply EmptyFeedError with r.
        -- destruct (ICAL_parse (http_text r)) eqn:Hparse; [discriminate|].
           intros [= <-]. now apply ParseError with r.
      * intros [= <-]. now apply FetchError.
  - intros [m Hf|r Hf Hok|r Hf Hok Hb|r Hf Hok Hb Hparse]; rewrite Hf.
    + reflexivity.
    + now rewrite Hok.
    + now rewrite Hok, Hb.
    + now rewrite Hok, Hb, Hparse.
Qed.

Lemma syncProperty_failure (env : PropertyEnv) (p : Property) (db0 : Db) (message : string) :
  parseICalFromUrl ICAL_parse env (ical_url p) = Exc.Throw message ->
  fst (syncProperty tz ICAL_parse env p db0) = failedResult p message
  /\ cleaning_jobs (snd (syncProperty tz ICAL_parse env p db0)) = cleaning_jobs db0.
Proof.
  intros H. unfold syncProperty.
  rewrite (sync_feed_failure tz ICAL_parse env p db0 message H). split; reflexivity.
Qed.

Lemma syncProperty_jobs_only (env : PropertyEnv) (p : Property) (db0 db0' : Db) :
  cleaning_jobs db0 = cleaning_jobs db0' ->
  fst (syncProperty tz ICAL_parse env p db0) = fst (syncProperty tz ICAL_parse env p db0')
  /\ cleaning_jobs (snd (syncProperty tz ICAL_parse env p db0))
     = cleaning_jobs (snd (syncProperty tz ICAL_parse env p db0')).
Proof.
  intros Hjobs. unfold syncProperty. cbn [fst snd].
  destruct (parseICalFromUrl ICAL_parse env (ical_url p)) as [events|message] eqn:Hp.
  - destruct (cleanersQuery env) as [cleaners|message] eqn:Hc.
    + rewrite !(sync_completes tz ICAL_parse env p _ events cleaners Hp Hc).
      cbn [setSuccess updateProperties db result cleaning_jobs].
      match goal with
      | |- context [reconcile ?e ?q ?c ?i ?cs {| db := db0; result := ?r; log := ?l |}] =>
          destruct (reconcile_jobs_only e q c cs i
                      {| db := db0; result := r; log := l |}
                      {| db := db0'; result := r; log := l |} Hjobs eq_refl eq_refl)
            as (H1 & H2 & _)
      end.
      rewrite H1, H2. split; reflexivity.
    + rewrite !(sync_cleaners_failure tz ICAL_parse env p _ events message Hp Hc).
      split; [reflexivity | exact Hjobs].
  - rewrite !(sync_feed_failure tz ICAL_parse env p _ message Hp).
    split; [reflexivity | exact Hjobs].
Qed.

Variable envOf : Property -> PropertyEnv.

Let run := syncEach tz ICAL_parse envOf.

Lemma syncEach_cons (p : Property) (ps : list Property) (db0 : Db) :
  run (p :: ps) db0
  = (fst (syncProperty tz ICAL_parse (envOf p) p db0)
       :: fst (run ps (snd (syncProperty tz ICAL_parse (envOf p) p db0))),
     snd (run ps (snd (syncProperty tz ICAL_parse (envOf p) p db0)))).
Proof.
  unfold run. cbn [syncEach].
  destruct (syncProperty tz ICAL_parse (envOf p) p db0) as [r db1]. cbn [fst snd].
  now destruct (syncEach tz ICAL_parse envOf ps db1).
Qed.

Lemma syncEach_app (ps1 ps2 : list Property) :
  forall db0,
    run (ps1 ++ ps2) db0
    = (fst (run ps1 db0) ++ fst (run ps2 (snd (run ps1 db0))),
       snd (run ps2 (snd (run ps1 db0)))).
Proof.
  induction ps1 as [|p ps1 IH]; intros db0.
  - simpl. now destruct (run ps2 db0).
  - rewrite <- app_comm_cons, !syncEach_cons, IH. reflexivity.
Qed.

Lemma syncEach_length (ps : list Property) :
  forall db0, List.length (fst (run ps db0)) = List.length ps.
Proof.
  induction ps as [|p ps IH]; intros db0; [reflexivity|].
  rewrite syncEach_cons. simpl. now rewrite IH.
Qed.

Lemma syncEach_jobs_only (ps : list Property) :
  forall db0 db0',
    cleaning_jobs db0 = cleaning_jobs db0' ->
    fst (run ps db0) = fst (run ps db0')
    /\ cleaning_jobs (snd (run ps db0)) = cleaning_jobs (snd (run ps db0')).
Proof.
  induction ps as [|p ps IH]; intros db0 db0' Hjobs; [now split|].
  rewrite !syncEach_cons. cbn [fst snd].
  destruct (syncProperty_jobs_only (envOf p) p db0 db0' Hjobs) as (Hr & Hj).
  destruct (IH _ _ Hj) as (Hrs & Hjs).
  now rewrite Hr, Hrs, Hjs.
Qed.

End AllProperties.

Lemma total_jobs_from (l : list SyncResult) (a : nat) :
  fold_left (fun sum r => (sum + jobs_created r)%nat) l a
  = (a + fold_left (fun sum r => (sum + jobs_created r)%nat) l 0%nat)%nat.
Proof.
  revert a. induction l as [|r l IH]; intros a; simpl; [lia|].
  rewrite (IH (a + jobs_created r)%nat), (IH (jobs_created r)). lia.
Qed.

Lemma summarize_failed (rs1 rs2 : list SyncResult) (r : SyncResult) :
  success r = false -> jobs_created r = 0%nat ->
  synced (summarize (rs1 ++ r :: rs2)) = synced (summarize (rs1 ++ rs2))
  /\ errors (summarize (rs1 ++ r :: rs2)) = S (errors (summarize (rs1 ++ rs2)))
  /\ total_jobs_created (summarize (rs1 ++ r :: rs2))
     = total_jobs_created (summarize (rs1 ++ rs2)).
Proof.
  intros Hs Hj. unfold summarize.
  cbn [synced errors total_jobs_created].
  rewrite !filter_app, !fold_left_app. cbn [filter fold_left]. rewrite Hs, Hj. cbn [negb].
  rewrite !length_app. cbn [List.length]. rewrite Nat.add_0_r.
  repeat split; lia.
Qed.

Lemma summarize_counts (rs : list SyncResult) :
  (synced (summarize rs) + errors (summarize rs))%nat = List.length rs.
Proof. unfold summarize. cbn [synced errors]. apply filter_length. Qed.

(** C7. Failure isolation: when the feed of one active property fails (the
    request fails, the status is not a success, the body is blank, or the
    document is rejected), the handler still answers with the summary of all
    properties; that property is reported with [success = false], the
    error message and no job; the results of the other properties and the
    job table are what a run without the failing property gives; so the
    summary counts every property, one more error, and the same synced
    properties and created jobs. *)
Theorem C7_failure_isolation (tz : Z) (ICAL_parse : string -> option (list VEvent))
    (senv : ServeEnv) (db0 : Db) (ps1 ps2 : list Property) (p : Property)
    (message : string) :
  isPreflight senv = false ->
  configured senv = true ->
  propertiesQuery senv = None ->
  filter active (properties db0) = ps1 ++ p :: ps2 ->
  feedFailure ICAL_parse (envOf senv p) (ical_url p) message ->
  exists rs1 rs2 dbWithout dbWith,
    syncEach tz ICAL_parse (envOf senv) (ps1 ++ ps2) db0 = (rs1 ++ rs2, dbWithout)
    /\ List.length rs1 = List.length ps1
    /\ List.length rs2 = List.length ps2
    /\ serve tz ICAL_parse senv db0
       = (Completed (summarize (rs1 ++ failedResult p message :: rs2)), dbWith)
    /\ cleaning_jobs dbWith = cleaning_jobs dbWithout
    /\ synced (summarize (rs1 ++ failedResult p message :: rs2))
       = synced (summarize (rs1 ++ rs2))
    /\ errors (summarize (rs1 ++ failedResult p message :: rs2))
       = S (errors (summarize (rs1 ++ rs2)))
    /\ total_jobs_created (summarize (rs1 ++ failedResult p message :: rs2))
       = total_jobs_created (summarize (rs1 ++ rs2))
    /\ (synced (summarize (rs1 ++ failedResult p message :: rs2))
        + errors (summarize (rs1 ++ failedResult p message :: rs2)))%nat
       = List.length (ps1 ++ p :: ps2).
Proof.
  intros Hpre Hconf Hquery Hactive Hfail.
  apply feedFailure_iff in Hfail.
  set (run := syncEach tz ICAL_parse (envOf senv)).
  set (d1 := snd (run ps1 db0)).
  set (d1' := snd (syncProperty tz ICAL_parse (envOf senv p) p d1)).
  destruct (syncProperty_failure tz ICAL_parse (envOf senv p) p d1 message Hfail)
    as (Hr & Hj).
  destruct (syncEach_jobs_only tz ICAL_parse (envOf senv) ps2 d1' d1 Hj) as (Hrs & Hjs).
  exists (fst (run ps1 db0)), (fst (run ps2 d1)), (snd (run ps2 d1)), (snd (run ps2 d1')).
  assert (Hlen1 : List.length (fst (run ps1 db0)) = List.length ps1)
    by apply syncEach_length.
  assert (Hlen2 : List.length (fst (run ps2 d1)) = List.length ps2)
    by apply syncEach_length.
  destruct (summarize_failed (fst (run ps1 db0)) (fst (run ps2 d1))
              (failedResult p message) eq_refl eq_refl) as (Hsy & Her & Htot).
  split; [apply syncEach_app|]. split; [exact Hlen1|]. split; [exact Hlen2|].
  split; [|split; [exact Hjs|]].
  - unfold serve. rewrite Hpre, Hconf, Hquery, Hactive. cbn [negb].
    destruct (ps1 ++ p :: ps2) as [|q qs] eqn:E; [destruct ps1; discriminate|].
    rewrite <- E. unfold d1', d1, run in *.
    rewrite syncEach_app, syncEach_cons. cbn [fst snd]. now rewrite Hr, Hrs.
  - split; [exact Hsy|]. split; [exact Her|]. split; [exact Htot|].
    rewrite summarize_counts, !length_app. cbn [List.length].
    now rewrite Hlen1, Hlen2.
Qed.

Lemma C7_failure_isolation_witness :
  exists rs1 rs2 dbWithout dbWith,
    syncEach 0 Sample.feed (envOf Sample.request)
             ([Sample.property "1"] ++ [Sample.property "3"]) Sample.emptyDb
    = (rs1 ++ rs2, dbWithout)
    /\ List.length rs1 = 1%nat
    /\ List.length rs2 = 1%nat
    /\ serve 0 Sample.feed Sample.request Sample.emptyDb
       = (Completed
            (summarize
               (rs1 ++ failedResult (Sample.property "2")
                         "Failed to fetch iCal: 500 Internal Server Error" :: rs2)),
          dbWith)
    /\ cleaning_jobs dbWith = cleaning_jobs dbWithout.
Proof.
  destruct (C7_failure_isolation 0 Sample.feed Sample.request Sample.emptyDb
              [Sample.property "1"] [Sample.property "3"] (Sample.property "2")
              "Failed to fetch iCal: 500 Internal Server Error"
              eq_refl eq_refl eq_refl eq_refl
              (FetchError Sample.feed (envOf Sample.request (Sample.property "2"))
                 (ical_url (Sample.property "2"))
                 {| http_status := 500; http_statusText := "Internal Server Error";
                    http_text := "BEGIN:VCALENDAR" |} eq_refl eq_refl))
    as (rs1 & rs2 & dbWithout & dbWith & H1 & H2 & H3 & H4 & H5 & _).
  exists rs1, rs2, dbWithout, dbWith. repeat split; assumption.
Defined.

(** Three active properties, the second answering with status 500: three
    results, two synced, one error, and the jobs of the first and the third
    created. *)
Example three_properties_one_failing :
  let '(response, db1) := serve 0 Sample.feed Sample.request Sample.emptyDb in
  match response with
  | Completed body =>
      List.length (details body) = 3%nat
      /\ synced body = 2%nat /\ errors body = 1%nat /\ total_jobs_created body = 4%nat
      /\ map success (details body) = [true; false; true]
      /\ map error (details body)
         = [None; Some "Failed to fetch iCal: 500 Internal Server Error"%string; None]
  | _ => False
  end
  /\ map (fun j => (job_property_id j, checkout_date j)) (cleaning_jobs db1)
     = [("1", "2024-01-12"); ("1", "2024-01-15");
        ("3", "2024-01-12"); ("3", "2024-01-15")]%string.
Proof. vm_compute. repeat split; reflexivity. Qed.

(* ================================================================== *)
(** * Part III: further properties of the code                         *)
(* ================================================================== *)

(** ** Parsing entries *)

Lemma parseVEvent_usable (v : VEvent) :
  usable v = false <-> parseVEvent v = None.
Proof.
  destruct v as [|f]; simpl; [tauto|].
  destruct (v_startDate f); split; congruence.
Qed.

Lemma parseVEvents_app (l1 l2 : list VEvent) :
  parseVEvents (l1 ++ l2) = parseVEvents l1 ++ parseVEvents l2.
Proof.
  induction l1 as [|v l1 IH]; simpl; [reflexivity|].
  destruct (parseVEvent v); simpl; now rewrite IH.
Qed.

(** X1. Entry tolerance: an entry that is malformed or has no start time
    leaves the parsed sequence as if it were not in the feed, wherever it
    stands; the other entries yield one event each, in feed order, so the
    number of events is the number of usable entries. *)
Theorem X1_parse_skips_unusable_entries (l1 l2 : list VEvent) (v : VEvent) :
  usable v = false ->
  parseVEvents (l1 ++ v :: l2) = parseVEvents l1 ++ parseVEvents l2
  /\ parseVEvents (l1 ++ v :: l2) = parseVEvents (l1 ++ l2)
  /\ List.length (parseVEvents (l1 ++ v :: l2))
     = List.length (filter usable (l1 ++ l2)).
Proof.
  intros Hv. apply parseVEvent_usable in Hv.
  assert (H : parseVEvents (l1 ++ v :: l2) = parseVEvents l1 ++ parseVEvents l2).
  { rewrite parseVEvents_app. simpl. now rewrite Hv. }
  split; [exact H|]. split; [now rewrite H, parseVEvents_app|].
  rewrite H, <- parseVEvents_app, parseVEvents_length.
  f_equal. apply filter_ext. intros x.
  destruct (parseVEvent x) eqn:E.
  - destruct (usable x) eqn:U; [reflexivity|].
    apply parseVEvent_usable in U. congruence.
  - now apply parseVEvent_usable in E.
Qed.

Lemma X1_parse_skips_unusable_entries_witness :
  parseVEvents ([Sample.entry (Some "Booking A"%string) 1704895200000 (Some 1705057200000)]
                  ++ Malformed
                  :: [Sample.entry (Some "Booking B"%string) 1705071600000 (Some 1705316400000)])
  = [Sample.bookingA; Sample.bookingB].
Proof.
  destruct (X1_parse_skips_unusable_entries
              [Sample.entry (Some "Booking A"%string) 1704895200000 (Some 1705057200000)]
              [Sample.entry (Some "Booking B"%string) 1705071600000 (Some 1705316400000)]
              Malformed eq_refl) as (H & _).
  rewrite H. reflexivity.
Defined.

(** X2. Parsed events are well formed: every event the parser returns
    comes from an entry of the feed with a start time, starts there, ends
    at the entry's end or at its start when the entry has none, carries
    the entry's summary when that is present and not empty, and never has
    an empty label. *)
Theorem X2_parsed_event_shape (vevents : list VEvent) (e : ICalEvent) :
  In e (parseVEvents vevents) ->
  summary e <> EmptyString
  /\ exists f s,
       In (Entry f) vevents
       /\ v_startDate f = Some s
       /\ start e = s
       /\ end_ e = match v_endDate f with Some x => x | None => s end
       /\ (forall label, v_summary f = Some label -> label <> EmptyString ->
                         summary e = label)
       /\ (v_endDate f = None -> end_ e = start e).
Proof.
  induction vevents as [|v r IH]; simpl; [tauto|].
  destruct (parseVEvent v) as [e0|] eqn:E.
  - intros [<-|Hin].
    + destruct v as [|f]; [discriminate|]. simpl in E.
      destruct (v_startDate f) as [s|] eqn:Hs; [|discriminate].
      injection E as <-. simpl. split.
      * unfold orDefault. destruct (v_summary f) as [x|]; [|discriminate].
        destruct (String.eqb_spec x EmptyString); [discriminate | assumption].
      * exists f, s. repeat split; auto.
        -- intros label -> Hne. simpl.
           destruct (String.eqb_spec label EmptyString); [contradiction | reflexivity].
        -- now intros ->.
    + destruct (IH Hin) as (H1 & f & s & H2 & H3). split; [exact H1|].
      exists f, s. tauto.
  - intros Hin. destruct (IH Hin) as (H1 & f & s & H2 & H3). split; [exact H1|].
    exists f, s. tauto.
Qed.

Lemma X2_parsed_event_shape_witness :
  summary (Sample.booking "Untitled Event" 5 5) <> EmptyString
  /\ end_ (Sample.booking "Untitled Event" 5 5) = 5.
Proof.
  destruct (X2_parsed_event_shape
              [Malformed;
               Entry {| v_uid := Some "uid"%string; v_summary := Some EmptyString;
                        v_description := None; v_location := None;
                        v_startDate := Some 5; v_endDate := None |}]
              (Sample.booking "Untitled Event" 5 5)
              (or_introl eq_refl)) as (H & _).
  split; [exact H | reflexivity].
Defined.

(** ** Order of the checkouts *)

Lemma insertByEnd_Forall (P : ICalEvent -> Prop) (e : ICalEvent) (l : list ICalEvent) :
  P e -> Forall P l -> Forall P (insertByEnd e l).
Proof.
  intros He Hl. induction Hl as [|x r Hx Hr IH]; simpl.
  - now constructor.
  - destruct (end_ e <=? end_ x); repeat constructor; auto.
Qed.

Lemma insertByEnd_sorted (e : ICalEvent) (l : list ICalEvent) :
  StronglySorted byEnd l -> StronglySorted byEnd (insertByEnd e l).
Proof.
  induction 1 as [|x r Hr IH Hx]; simpl.
  - repeat constructor.
  - destruct (Z.leb_spec (end_ e) (end_ x)) as [Hle|Hgt].
    + constructor; [now constructor|].
      constructor; [exact Hle|].
      revert Hx. apply Forall_impl. unfold byEnd. intros; lia.
    + constructor; [exact IH|].
      apply insertByEnd_Forall; [unfold byEnd; lia | exact Hx].
Qed.

Lemma sortByEnd_sorted (l : list ICalEvent) : StronglySorted byEnd (sortByEnd l).
Proof.
  induction l as [|e r IH]; simpl; [constructor | now apply insertByEnd_sorted].
Qed.

Lemma extractLoop_bound (tz k : Z) (all l : list ICalEvent) :
  Forall (fun e => k <= end_ e) l ->
  Forall (fun c => k <= date c) (extractLoop tz all l).
Proof.
  induction 1 as [|e r He Hr IH]; simpl; [constructor|].
  destruct (isBlocked e); [exact IH | now constructor].
Qed.

Lemma extractLoop_sorted (tz : Z) (all l : list ICalEvent) :
  StronglySorted byEnd l -> StronglySorted byDate (extractLoop tz all l).
Proof.
  induction 1 as [|e r Hr IH He]; simpl; [constructor|].
  destruct (isBlocked e); [exact IH|].
  constructor; [exact IH|]. now apply extractLoop_bound.
Qed.

Lemma filter_sorted {A : Type} (R : A -> A -> Prop) (f : A -> bool) (l : list A) :
  StronglySorted R l -> StronglySorted R (filter f l).
Proof.
  induction 1 as [|x r Hr IH Hx]; simpl; [constructor|].
  destruct (f x); [|exact IH]. constructor; [exact IH|].
  apply Forall_forall. intros y Hy. apply filter_In in Hy as [Hy _].
  revert y Hy. now apply Forall_forall.
Qed.

(** X3. Checkout order: whatever the order of the feed, the extractor
    returns the checkouts by ascending date, and so are the upcoming
    checkouts the job loop goes through. *)
Theorem X3_checkouts_ascending (tz : Z) (env : PropertyEnv) (events : list ICalEvent) :
  StronglySorted byDate (extractCheckouts tz events)
  /\ StronglySorted byDate (upcomingOf tz env events).
Proof.
  assert (H : StronglySorted byDate (extractCheckouts tz events)).
  { rewrite extractCheckouts_eq. apply extractLoop_sorted, sortByEnd_sorted. }
  split; [exact H|]. unfold upcomingOf, filterUpcomingCheckouts.
  now apply filter_sorted.
Qed.

Lemma same_key_same_element {A : Type} (key : A -> Z) (l : list A) (x y : A) :
  NoDup (map key l) -> In x l -> In y l -> key x = key y -> x = y.
Proof.
  induction l as [|a r IH]; simpl; [tauto|].
  intros Hnd Hx Hy Hk. inversion Hnd as [|? ? Hni Hnd']; subst.
  destruct Hx as [->|Hx], Hy as [->|Hy]; auto.
  - exfalso. apply Hni. rewrite Hk. now apply in_map.
  - exfalso. apply Hni. rewrite <- Hk. now apply in_map.
Qed.

Lemma sorted_unique (l l' : list ICalEvent) :
  StronglySorted byEnd l -> StronglySorted byEnd l' ->
  NoDup (map end_ l) -> Permutation l l' -> l = l'.
Proof.
  revert l'. induction l as [|x r IH]; intros l' Hs Hs' Hnd Hp.
  - now apply Permutation_nil in Hp.
  - destruct l' as [|y r']; [apply Permutation_sym, Permutation_nil in Hp; discriminate|].
    assert (Hxy : x = y).
    { apply (same_key_same_element end_ (x :: r)); auto; [now left | |].
      - apply (Permutation_in y (Permutation_sym Hp)). now left.
      - apply StronglySorted_inv in Hs as [_ Hx], Hs' as [_ Hy].
        rewrite Forall_forall in Hx, Hy. unfold byEnd in *.
        assert (Hx' : In x (y :: r')) by (apply (Permutation_in x Hp); now left).
        assert (Hy' : In y (x :: r))
          by (apply (Permutation_in y (Permutation_sym Hp)); now left).
        destruct Hx' as [->|Hx']; [reflexivity|].
        destruct Hy' as [->|Hy']; [reflexivity|].
        specialize (Hx _ Hy'). specialize (Hy _ Hx'). lia. }
    subst y. f_equal. apply IH.
    + now apply StronglySorted_inv in Hs.
    + now apply StronglySorted_inv in Hs'.
    + now inversion Hnd.
    + now apply Permutation_cons_inv in Hp.
Qed.

(** X4. Feed order does not matter: two feeds holding the same events in
    different orders give the same checkouts, flags and next check-ins
    included, when no two events end at the same instant. *)
Theorem X4_feed_order_irrelevant (tz : Z) (events events' : list ICalEvent) :
  Permutation events events' ->
  NoDup (map end_ events) ->
  extractCheckouts tz events = extractCheckouts tz events'.
Proof.
  intros Hp Hnd. rewrite !extractCheckouts_eq.
  assert (H : sortByEnd events = sortByEnd events').
  { apply sorted_unique; try apply sortByEnd_sorted.
    - apply (Permutation_NoDup (Permutation_map end_ (Permutation_sym (sortByEnd_perm events)))).
      exact Hnd.
    - rewrite (sortByEnd_perm events), Hp. symmetry. apply sortByEnd_perm. }
  now rewrite H.
Qed.

Lemma X4_feed_order_irrelevant_witness :
  extractCheckouts 0 [Sample.bookingA; Sample.hostBlock; Sample.bookingB]
  = extractCheckouts 0 [Sample.hostBlock; Sample.bookingA; Sample.bookingB].
Proof.
  apply X4_feed_order_irrelevant.
  - apply perm_swap.
  - repeat constructor; simpl; intuition discriminate.
Defined.

Lemma findNextCheckin_Some (later : list ICalEvent) (s : Z) :
  findNextCheckin later = Some s ->
  exists e', In e' later /\ isBlocked e' = false /\ start e' = s.
Proof.
  induction later as [|x r IH]; simpl; [discriminate|].
  destruct (isBlocked x) eqn:E; simpl.
  - intros H. destruct (IH H) as (e' & ? & ? & ?). exists e'. tauto.
  - intros [= <-]. exists x. tauto.
Qed.

Lemma extractLoop_next (tz : Z) (all l : list ICalEvent) (c : ParsedCheckout) (s : Z) :
  StronglySorted byEnd l ->
  In c (extractLoop tz all l) ->
  next_checkin_date c = Some s ->
  exists e', In e' l /\ isBlocked e' = false /\ start e' = s /\ date c <= end_ e'.
Proof.
  induction 1 as [|e r Hr IH He]; simpl; [tauto|].
  destruct (isBlocked e) eqn:E.
  - intros Hc Hn. destruct (IH Hc Hn) as (e' & ? & ? & ? & ?). exists e'. tauto.
  - intros [<-|Hc] Hn.
    + simpl in *. apply findNextCheckin_Some in Hn as (e' & Hin & Hb & Hs).
      exists e'. rewrite Forall_forall in He. specialize (He _ Hin).
      unfold byEnd in He. tauto.
    + destruct (IH Hc Hn) as (e' & ? & ? & ? & ?). exists e'. tauto.
Qed.

(** X5. The next check-in agrees with the flag: the next check-in of a
    checkout is the start of a non-blocked event of the feed that ends no
    earlier than the checkout, and when it falls on the local day of the
    checkout the checkout is flagged as a same-day turnaround. *)
Theorem X5_next_checkin_consistent (tz : Z) (events : list ICalEvent)
    (c : ParsedCheckout) (s : Z) :
  In c (extractCheckouts tz events) ->
  next_checkin_date c = Some s ->
  (exists e', In e' events /\ ~ blockedLabel (summary e') /\ start e' = s
              /\ date c <= end_ e')
  /\ (startOfDay tz s = startOfDay tz (date c) -> has_same_day_checkin c = true).
Proof.
  intros Hc Hn.
  pose proof (extractCheckouts_In tz events c Hc) as (_ & _ & _ & Hflag).
  rewrite extractCheckouts_eq in Hc.
  destruct (extractLoop_next tz _ _ c s (sortByEnd_sorted events) Hc Hn)
    as (e' & Hin & Hb & Hs & Hle).
  apply (proj1 (sortByEnd_In _ _)) in Hin.
  split.
  - exists e'. split; [exact Hin|]. split; [now apply isBlocked_false_iff|]. tauto.
  - intros Hday. rewrite Hflag. apply detectSameDayTurnaround_iff.
    exists e'. split; [now apply sortByEnd_In|]. split; [exact Hb|]. now rewrite Hs.
Qed.

Lemma X5_next_checkin_consistent_witness :
  has_same_day_checkin
    {| date := 1705057200000; event := Sample.bookingA;
       has_same_day_checkin := true; next_checkin_date := Some 1705071600000 |} = true.
Proof.
  refine (proj2 (X5_next_checkin_consistent 0 [Sample.bookingA; Sample.bookingB]
                   {| date := 1705057200000; event := Sample.bookingA;
                      has_same_day_checkin := true;
                      next_checkin_date := Some 1705071600000 |}
                   1705071600000 (or_introl eq_refl) eq_refl) eq_refl).
Defined.

(** X6. What the same-day test depends on: only the local day of the
    checkout date and the set of events, not the time of day, the order of
    the events or their repetition. *)
Theorem X6_same_day_depends_on_day_and_set (tz d d' : Z) (l l' : list ICalEvent) :
  localDay tz d = localDay tz d' ->
  (forall e, In e l <-> In e l') ->
  detectSameDayTurnaround tz d l = detectSameDayTurnaround tz d' l'.
Proof.
  intros Hd Hl.
  assert (H : detectSameDayTurnaround tz d l = true
              <-> detectSameDayTurnaround tz d' l' = true).
  { rewrite !detectSameDayTurnaround_iff.
    apply startOfDay_eq_iff in Hd.
    split; intros (e & Hin & Hb & Hs); exists e; rewrite Hl in *; split; auto;
      split; auto; congruence. }
  destruct (detectSameDayTurnaround tz d l), (detectSameDayTurnaround tz d' l');
    try reflexivity; [symmetry|]; apply H; reflexivity.
Qed.

Lemma X6_same_day_depends_on_day_and_set_witness :
  detectSameDayTurnaround 0 1705057200000 [Sample.bookingA; Sample.bookingB]
  = detectSameDayTurnaround 0 1705100000000 [Sample.bookingB; Sample.bookingA; Sample.bookingB].
Proof.
  apply X6_same_day_depends_on_day_and_set.
  - reflexivity.
  - intros e. simpl. tauto.
Defined.

(** ** More on the window *)

(** X7. The window never reaches into the past: whatever the horizon, no
    kept checkout lies before today's local midnight, and none lies on or
    after the midnight that follows the last day of the window; with a
    negative horizon nothing is kept. *)
Theorem X7_window_bounds (tz now : Z) (days : option Z)
    (checkouts : list ParsedCheckout) :
  (forall c, In c (filterUpcomingCheckouts tz now checkouts days) ->
     startOfDay tz now <= date c
     < startOfDay tz now + (daysOrDefault days + 1) * msPerDay)
  /\ (daysOrDefault days < 0 -> filterUpcomingCheckouts tz now checkouts days = []).
Proof.
  split.
  - intros c Hc. unfold filterUpcomingCheckouts in Hc.
    apply filter_In in Hc as [_ Hc]. apply isUpcoming_true in Hc.
    unfold withinWindow in Hc. cbv zeta in Hc.
    pose proof (startOfDay_le tz (date c)). unfold msPerDay in *. lia.
  - intros Hneg. unfold filterUpcomingCheckouts.
    induction checkouts as [|c r IH]; simpl; [reflexivity|].
    destruct (isUpcoming tz now (daysOrDefault days) c) eqn:E; [|exact IH].
    apply isUpcoming_true in E. unfold withinWindow in E. cbv zeta in E.
    unfold msPerDay in E. lia.
Qed.

(** X8. Narrowing the window: when the midnight that ends the longer
    window is not beyond the last time a date can hold, filtering with the
    longer horizon and then with a shorter one is filtering with the
    shorter one; in particular filtering twice with such a horizon changes
    nothing. *)
Theorem X8_window_narrowing (tz now h h' : Z) (checkouts : list ParsedCheckout) :
  h <= h' ->
  startOfDay tz now + h' * msPerDay <= maxTime ->
  filterUpcomingCheckouts tz now
    (filterUpcomingCheckouts tz now checkouts (Some h')) (Some h)
  = filterUpcomingCheckouts tz now checkouts (Some h).
Proof.
  intros Hh Hmax. unfold filterUpcomingCheckouts. simpl.
  induction checkouts as [|c r IH]; simpl; [reflexivity|].
  destruct (isUpcoming tz now h' c) eqn:E'; simpl.
  - destruct (isUpcoming tz now h c); now rewrite IH.
  - destruct (isUpcoming tz now h c) eqn:E; [|exact IH].
    pose proof (isUpcoming_holds _ _ _ _ E) as Hvalid.
    apply isUpcoming_true in E. unfold withinWindow in E. cbv zeta in E.
    assert (E2 : isUpcoming tz now h' c = true).
    { apply isUpcoming_iff.
      - unfold horizonHolds, maxTime, msPerDay in *. lia.
      - unfold withinWindow. cbv zeta. unfold msPerDay in *. lia. }
    congruence.
Qed.

Lemma X8_window_narrowing_witness :
  filterUpcomingCheckouts 0 Sample.jan1
    (filterUpcomingCheckouts 0 Sample.jan1
       [Sample.checkoutAt Sample.jan31; Sample.checkoutAt Sample.jan1] (Some 30)) (Some 7)
  = filterUpcomingCheckouts 0 Sample.jan1
      [Sample.checkoutAt Sample.jan31; Sample.checkoutAt Sample.jan1] (Some 7).
Proof.
  apply X8_window_narrowing.
  - lia.
  - vm_compute. discriminate.
Defined.

(** Without the bound the longer window is empty and the equation fails. *)
Example narrowing_needs_the_bound :
  filterUpcomingCheckouts 0 Sample.jan1
    (filterUpcomingCheckouts 0 Sample.jan1
       [Sample.checkoutAt Sample.jan1] (Some 100000000)) (Some 7) = []
  /\ filterUpcomingCheckouts 0 Sample.jan1 [Sample.checkoutAt Sample.jan1] (Some 7)
     = [Sample.checkoutAt Sample.jan1].
Proof. split; reflexivity. Qed.

(** ** The calendar URL *)

Lemma substring_all (s : string) : substring 0 (String.length s) s = s.
Proof. induction s as [|c s IH]; simpl; [reflexivity | now rewrite IH]. Qed.

Lemma replaceWebcal_https (rest : string) :
  replaceWebcal ("https://" ++ rest) = ("https://" ++ rest)%string.
Proof. reflexivity. Qed.

Lemma replaceWebcal_scheme (p rest : string) :
  String.length p = 9%nat ->
  toLowerCase p = "webcal://"%string ->
  replaceWebcal (p ++ rest) = ("https://" ++ rest)%string.
Proof.
  intros Hlen Hlow.
  do 9 (destruct p as [|? p]; [discriminate|]).
  destruct p; [|discriminate].
  unfold replaceWebcal.
  cbn [append substring String.length Nat.sub].
  cbn [append substring] in Hlow |- *.
  replace (substring 0 0 rest) with EmptyString by now destruct rest.
  cbn [toLowerCase] in Hlow |- *. rewrite Hlow.
  cbn [startsWith Ascii.eqb Bool.eqb]. cbn.
  now rewrite Nat.sub_0_r, substring_all.
Qed.

(** X9. Calendar subscriptions: a URL whose first nine characters spell
    [webcal://] in any mix of upper and lower case is fetched as [https://]
    followed by the rest of the URL, unchanged; so the pipeline gives the
    same result, events or error, for a webcal URL and for its https
    form. *)
Theorem X9_webcal_is_fetched_as_https (ICAL_parse : string -> option (list VEvent))
    (env : PropertyEnv) (p rest : string) :
  String.length p = 9%nat ->
  toLowerCase p = "webcal://"%string ->
  replaceWebcal (p ++ rest) = ("https://" ++ rest)%string
  /\ parseICalFromUrl ICAL_parse env (p ++ rest)
     = parseICalFromUrl ICAL_parse env ("https://" ++ rest).
Proof.
  intros Hlen Hlow.
  pose proof (replaceWebcal_scheme p rest Hlen Hlow) as H.
  split; [exact H|].
  unfold parseICalFromUrl. now rewrite H, replaceWebcal_https.
Qed.

Lemma X9_webcal_is_fetched_as_https_witness :
  replaceWebcal "WebCal://calendar.example/1" = "https://calendar.example/1"%string.
Proof.
  exact (proj1 (X9_webcal_is_fetched_as_https Sample.feed
                  (Sample.world Sample.noFault (Sample.property "1"))
                  "WebCal://" "calendar.example/1" eq_refl eq_refl)).
Defined.

(** X10. The rewrite is done once: the rewritten URL never starts with the
    webcal scheme again, so rewriting it a second time changes nothing. *)
Theorem X10_replaceWebcal_idempotent (url : string) :
  startsWith (toLowerCase (substring 0 9 (replaceWebcal url))) "webcal://" = false
  /\ replaceWebcal (replaceWebcal url) = replaceWebcal url.
Proof.
  assert (H : startsWith (toLowerCase (substring 0 9 (replaceWebcal url))) "webcal://"
              = false).
  { unfold replaceWebcal at 1.
    destruct (startsWith (toLowerCase (substring 0 9 url)) "webcal://") eqn:E.
    - reflexivity.
    - exact E. }
  split; [exact H|].
  unfold replaceWebcal at 1. now rewrite H.
Qed.

(** ** The assigned cleaner *)

Lemma truthy_Some (o : option string) (c : string) :
  truthy o = Some c <-> o = Some c /\ c <> EmptyString.
Proof.
  destruct o as [s|]; simpl.
  - destruct (String.eqb_spec s EmptyString) as [->|Hne]; split.
    + discriminate.
    + intros [[= <-] H]. contradiction.
    + intros [= <-]. tauto.
    + intros [[= <-] _]. reflexivity.
  - split; [discriminate | intros [H _]; discriminate].
Qed.

(** X11. Choice of the cleaner: the first cleaner marked primary is
    assigned when its id is not empty; when none is primary the first
    cleaner of the list is; with no cleaner configured none is assigned;
    and an assigned id is never empty and always belongs to a configured
    cleaner. *)
Theorem X11_assigned_cleaner (l : list PropertyCleaner) :
  (forall pc, find is_primary l = Some pc -> cleaner_id pc <> EmptyString ->
              assignedCleaner (Some l) = Some (cleaner_id pc))
  /\ (find is_primary l = None ->
      assignedCleaner (Some l) = truthy (option_map cleaner_id (hd_error l)))
  /\ (forall c, assignedCleaner (Some l) = Some c ->
                c <> EmptyString /\ exists pc, In pc l /\ cleaner_id pc = c)
  /\ assignedCleaner (Some []) = None
  /\ assignedCleaner None = None.
Proof.
  split; [|split; [|split; [|split]]]; try reflexivity.
  - intros pc Hf Hne. unfold assignedCleaner. rewrite Hf. simpl.
    destruct (String.eqb_spec (cleaner_id pc) EmptyString); [contradiction | reflexivity].
  - intros Hf. unfold assignedCleaner. now rewrite Hf.
  - intros c. unfold assignedCleaner.
    destruct (truthy (option_map cleaner_id (find is_primary l))) as [c1|] eqn:E1.
    + intros [= <-]. apply truthy_Some in E1 as [E1 Hne]. split; [exact Hne|].
      destruct (find is_primary l) as [pc|] eqn:Hf; [|discriminate].
      injection E1 as <-. exists pc. split; [|reflexivity].
      now apply find_some in Hf.
    + intros H. apply truthy_Some in H as [H Hne]. split; [exact Hne|].
      destruct l as [|pc r]; [discriminate|]. injection H as <-.
      exists pc. split; [now left | reflexivity].
Qed.

(** ** The rows a sync writes *)

Lemma reconcile_rows (env : PropertyEnv) (p : Property) (cleaner : option string)
    (cs : list ParsedCheckout) :
  forall i w, exists kept,
    subsequence kept cs
    /\ cleaning_jobs (db (reconcile env p cleaner i cs w))
       = cleaning_jobs (db w) ++ map (jobFor p cleaner) kept
    /\ jobs_created (result (reconcile env p cleaner i cs w))
       = (jobs_created (result w) + List.length kept)%nat.
Proof.
  induction cs as [|c rest IH]; intros i w.
  - exists []. simpl. rewrite app_nil_r, Nat.add_0_r. repeat split. constructor.
  - rewrite reconcile_cons. loop_cases env i.
    + destruct (IH (S i) (note CheckFailed w)) as (kept & Hs & Hj & Hn).
      exists kept. split; [now constructor | now split].
    + destruct (IH (S i) (note SkippedExisting w)) as (kept & Hs & Hj & Hn).
      exists kept. split; [now constructor | now split].
    + destruct (IH (S i) (note InsertFailed w)) as (kept & Hs & Hj & Hn).
      exists kept. split; [now constructor | now split].
    + match goal with
      | |- context [reconcile _ _ _ _ _ ?w1] =>
          destruct (IH (S i) w1) as (kept & Hs & Hj & Hn)
      end.
      exists (c :: kept). split; [now constructor|]. split.
      * rewrite Hj. simpl. now rewrite <- app_assoc.
      * rewrite Hn. simpl. lia.
Qed.

(** X12. What a sync writes: when the feed and the cleaner lookup succeed,
    the stored jobs are kept as they are, in place, and the rows added
    after them are those of some of the upcoming checkouts, in checkout
    order, each with the property's id, the assigned cleaner, the date
    keys of the checkout and of its next check-in, the status pending and
    the checkout's same-day flag; [jobs_created] is their number. *)
Theorem X12_rows_written (tz : Z) (ICAL_parse : string -> option (list VEvent))
    (env : PropertyEnv) (property : Property) (db0 : Db)
    (events : list ICalEvent) (cleaners : option (list PropertyCleaner)) :
  parseICalFromUrl ICAL_parse env (ical_url property) = Exc.Return events ->
  cleanersQuery env = QueryData cleaners ->
  let w := syncPropertyWorld tz ICAL_parse env property db0 in
  exists kept,
    subsequence kept (upcomingOf tz env events)
    /\ cleaning_jobs (db w)
       = cleaning_jobs db0 ++ map (jobFor property (assignedCleaner cleaners)) kept
    /\ jobs_created (result w) = List.length kept.
Proof.
  intros Hp Hc w. subst w.
  rewrite (sync_completes tz ICAL_parse env property db0 events cleaners Hp Hc).
  match goal with
  | |- context [reconcile ?e ?q ?c ?i ?cs ?w0] =>
      destruct (reconcile_rows e q c cs i w0) as (kept & Hs & Hj & Hn)
  end.
  exists kept. split; [exact Hs|]. split; [exact Hj | exact Hn].
Qed.

Lemma X12_rows_written_witness :
  let p := Sample.property "1" in
  let env := Sample.world Sample.firstInsertFails p in
  exists kept,
    subsequence kept (upcomingOf 0 env [Sample.bookingA; Sample.bookingB])
    /\ cleaning_jobs (db (syncPropertyWorld 0 Sample.feed env p Sample.emptyDb))
       = cleaning_jobs Sample.emptyDb ++ map (jobFor p (Some "main"%string)) kept
    /\ jobs_created (result (syncPropertyWorld 0 Sample.feed env p Sample.emptyDb))
       = List.length kept.
Proof.
  intros p env.
  exact (X12_rows_written 0 Sample.feed env p Sample.emptyDb
           [Sample.bookingA; Sample.bookingB] Sample.cleaners eq_refl eq_refl).
Defined.

(** X13. Shape of a result: the result names the property it is about; it
    reports success exactly when it carries no error; and a failed sync has
    created no job and left the job table as it was. *)
Theorem X13_result_shape (tz : Z) (ICAL_parse : string -> option (list VEvent))
    (env : PropertyEnv) (property : Property) (db0 : Db) :
  let w := syncPropertyWorld tz ICAL_parse env property db0 in
  property_id (result w) = id property
  /\ property_name (result w) = name property
  /\ (success (result w) = true <-> error (result w) = None)
  /\ (success (result w) = false ->
      jobs_created (result w) = 0%nat /\ cleaning_jobs (db w) = cleaning_jobs db0).
Proof.
  intros w. subst w.
  destruct (parseICalFromUrl ICAL_parse env (ical_url property)) as [events|message] eqn:Hp.
  - destruct (cleanersQuery env) as [cleaners|message] eqn:Hc.
    + rewrite (sync_completes tz ICAL_parse env property db0 events cleaners Hp Hc).
      match goal with
      | |- context [reconcile ?e ?q ?c ?i ?cs ?w0] =>
          destruct (reconcile_frame e q c cs i w0) as (_ & _ & He & Hi & Hn)
      end.
      cbn [setSuccess updateProperties result db property_id property_name
                      success error cleaning_jobs jobs_created].
      rewrite He, Hi, Hn. simpl. repeat split; auto; discriminate.
    + rewrite (sync_cleaners_failure tz ICAL_parse env property db0 events message Hp Hc).
      simpl. repeat split; auto; discriminate.
  - rewrite (sync_feed_failure tz ICAL_parse env property db0 message Hp).
    simpl. repeat split; auto; discriminate.
Qed.

(** X14. Cleaner lookup failure: when the feed is fine but the cleaner
    lookup returns an error, the whole property fails with the message
    [Failed to fetch cleaners: ...]; no checkout is examined, no job is
    created, the error is stored on the property's rows and their
    last-synced marker is kept. *)
Theorem X14_cleaner_lookup_failure (tz : Z) (ICAL_parse : string -> option (list VEvent))
    (env : PropertyEnv) (property : Property) (db0 : Db)
    (events : list ICalEvent) (message : string) :
  parseICalFromUrl ICAL_parse env (ical_url property) = Exc.Return events ->
  cleanersQuery env = QueryError message ->
  let w := syncPropertyWorld tz ICAL_parse env property db0 in
  result w = failedResult property ("Failed to fetch cleaners: " ++ message)
  /\ error (result w) = Some ("Failed to fetch cleaners: " ++ message)%string
  /\ log w = []
  /\ cleaning_jobs (db w) = cleaning_jobs db0
  /\ properties (db w)
     = map (fun r => if String.eqb (id r) (id property)
                     then markSyncError
                            (Some ("Failed to fetch cleaners: " ++ message)%string) r
                     else r)
           (properties db0).
Proof.
  intros Hp Hc w. subst w.
  rewrite (sync_cleaners_failure tz ICAL_parse env property db0 events message Hp Hc).
  repeat split.
Qed.

Lemma X14_cleaner_lookup_failure_witness :
  let p := Sample.property "1" in
  let env := {| fetch := fetch (Sample.world Sample.noFault p);
                cleanersQuery := QueryError "timeout";
                checkError := Sample.noFault; insertError := Sample.noFault;
                clockAtFilter := 1704895200000; clockAtSynced := 1704895260000 |} in
  error (result (syncPropertyWorld 0 Sample.feed env p Sample.emptyDb))
  = Some "Failed to fetch cleaners: timeout"%string.
Proof.
  intros p env.
  exact (proj1 (proj2 (X14_cleaner_lookup_failure 0 Sample.feed env p Sample.emptyDb
                         [Sample.bookingA; Sample.bookingB] "timeout" eq_refl eq_refl))).
Defined.

(** ** Keys in the job table *)

Lemma jobKeys_app (p : string) (l l' : list CleaningJob) :
  jobKeys p (l ++ l') = jobKeys p l ++ jobKeys p l'.
Proof. unfold jobKeys. now rewrite filter_app, map_app. Qed.

Lemma hasJob_false_not_in (p k : string) (jobs : list CleaningJob) :
  hasJob p k jobs = false -> ~ In k (jobKeys p jobs).
Proof.
  intros H Hin. rewrite <- jobKeys_hasJob in H.
  assert (E : existsb (String.eqb k) (jobKeys p jobs) = true).
  { apply existsb_exists. exists k. split; [exact Hin | apply String.eqb_refl]. }
  congruence.
Qed.

Lemma NoDup_snoc {A : Type} (l : list A) (x : A) :
  NoDup l -> ~ In x l -> NoDup (l ++ [x]).
Proof.
  intros Hl Hx. apply NoDup_app; [exact Hl | repeat constructor; auto |].
  intros a Ha [<-|[]]. contradiction.
Qed.

Lemma reconcile_keeps_keys_distinct (env : PropertyEnv) (p : Property)
    (cleaner : option string) (cs : list ParsedCheckout) :
  forall i w,
    NoDup (jobKeys (id p) (cleaning_jobs (db w))) ->
    NoDup (jobKeys (id p) (cleaning_jobs (db (reconcile env p cleaner i cs w)))).
Proof.
  induction cs as [|c rest IH]; intros i w Hnd; [exact Hnd|].
  rewrite reconcile_cons. loop_cases env i; try (apply IH; exact Hnd).
  apply IH. cbn [note incrJobsCreated insertJob db cleaning_jobs].
  rewrite jobKeys_app. unfold jobKeys at 2. cbn [filter job_property_id].
  rewrite String.eqb_refl. cbn [map checkout_date].
  apply NoDup_snoc; [exact Hnd|]. now apply hasJob_false_not_in.
Qed.

(** X15. One job per date: if the stored jobs of a property have pairwise
    different checkout dates before its sync, they still have after it,
    whatever the feed holds and whichever queries or inserts fail; two
    checkouts of one UTC day never give two jobs. *)
Theorem X15_one_job_per_date (tz : Z) (ICAL_parse : string -> option (list VEvent))
    (env : PropertyEnv) (property : Property) (db0 : Db) :
  NoDup (jobKeys (id property) (cleaning_jobs db0)) ->
  NoDup (jobKeys (id property)
           (cleaning_jobs (db (syncPropertyWorld tz ICAL_parse env property db0)))).
Proof.
  intros Hnd.
  destruct (parseICalFromUrl ICAL_parse env (ical_url property)) as [events|message] eqn:Hp.
  - destruct (cleanersQuery env) as [cleaners|message] eqn:Hc.
    + rewrite (sync_completes tz ICAL_parse env property db0 events cleaners Hp Hc).
      cbn [setSuccess updateProperties db cleaning_jobs].
      now apply reconcile_keeps_keys_distinct.
    + now rewrite (sync_cleaners_failure tz ICAL_parse env property db0 events message Hp Hc).
  - now rewrite (sync_feed_failure tz ICAL_parse env property db0 message Hp).
Qed.

Lemma X15_one_job_per_date_witness :
  NoDup (jobKeys "1"
           (cleaning_jobs
              (db (syncPropertyWorld 0 Sample.feed
                     (Sample.world Sample.noFault (Sample.property "1"))
                     (Sample.property "1") Sample.emptyDb)))).
Proof.
  apply (X15_one_job_per_date 0 Sample.feed
           (Sample.world Sample.noFault (Sample.property "1"))
           (Sample.property "1") Sample.emptyDb).
  constructor.
Defined.

Lemma jobsOf_app (q : string) (l l' : list CleaningJob) :
  jobsOf q (l ++ l') = jobsOf q l ++ jobsOf q l'.
Proof. unfold jobsOf. apply filter_app. Qed.

Lemma reconcile_other_jobs (env : PropertyEnv) (p : Property) (cleaner : option string)
    (q : string) (cs : list ParsedCheckout) (i : nat) (w : World) :
  q <> id p ->
  jobsOf q (cleaning_jobs (db (reconcile env p cleaner i cs w)))
  = jobsOf q (cleaning_jobs (db w)).
Proof.
  intros Hq. destruct (reconcile_rows env p cleaner cs i w) as (kept & _ & -> & _).
  rewrite jobsOf_app.
  assert (H : jobsOf q (map (jobFor p cleaner) kept) = []).
  { induction kept as [|c r IH]; [reflexivity|].
    unfold jobsOf in *. cbn [map filter jobFor job_property_id].
    destruct (String.eqb_spec (id p) q); [congruence | exact IH]. }
  rewrite H. apply app_nil_r.
Qed.

(** X16. Other properties' jobs: the sync of a property reads and writes
    only the jobs that carry its own id: the jobs of any other property,
    in their order, are the same after it as before. *)
Theorem X16_other_jobs_untouched (tz : Z) (ICAL_parse : string -> option (list VEvent))
    (env : PropertyEnv) (property : Property) (db0 : Db) (q : string) :
  q <> id property ->
  jobsOf q (cleaning_jobs (db (syncPropertyWorld tz ICAL_parse env property db0)))
  = jobsOf q (cleaning_jobs db0).
Proof.
  intros Hq.
  destruct (parseICalFromUrl ICAL_parse env (ical_url property)) as [events|message] eqn:Hp.
  - destruct (cleanersQuery env) as [cleaners|message] eqn:Hc.
    + rewrite (sync_completes tz ICAL_parse env property db0 events cleaners Hp Hc).
      cbn [setSuccess updateProperties db cleaning_jobs].
      now rewrite reconcile_other_jobs.
    + now rewrite (sync_cleaners_failure tz ICAL_parse env property db0 events message Hp Hc).
  - now rewrite (sync_feed_failure tz ICAL_parse env property db0 message Hp).
Qed.

Lemma X16_other_jobs_untouched_witness :
  jobsOf "3"
    (cleaning_jobs
       (db (syncPropertyWorld 0 Sample.feed
              (Sample.world Sample.noFault (Sample.property "1")) (Sample.property "1")
              {| properties := []; cleaning_jobs := [Sample.job "3" "2024-01-12"] |})))
  = [Sample.job "3" "2024-01-12"].
Proof.
  apply (X16_other_jobs_untouched 0 Sample.feed
           (Sample.world Sample.noFault (Sample.property "1")) (Sample.property "1")
           {| properties := []; cleaning_jobs := [Sample.job "3" "2024-01-12"] |} "3").
  discriminate.
Defined.

Lemma reconcile_key_set (env : PropertyEnv) (p : Property) (cleaner : option string)
    (cs : list ParsedCheckout) :
  (forall i, checkError env i = false) ->
  (forall i, insertError env i = false) ->
  forall i w k,
    hasJob (id p) k (cleaning_jobs (db (reconcile env p cleaner i cs w)))
    = hasJob (id p) k (cleaning_jobs (db w))
      || existsb (fun c => String.eqb (dateKey (date c)) k) cs.
Proof.
  intros Hcheck Hinsert.
  induction cs as [|c rest IH]; intros i w k.
  - simpl. now rewrite orb_false_r.
  - rewrite reconcile_cons, Hcheck, Hinsert. cbn [existsb].
    destruct (hasJob (id p) (dateKey (date c)) (cleaning_jobs (db w))) eqn:Hhas.
    + rewrite IH. cbn [note db cleaning_jobs].
      destruct (String.eqb_spec (dateKey (date c)) k) as [<-|Hne]; [|reflexivity].
      rewrite Hhas. reflexivity.
    + rewrite IH. cbn [note incrJobsCreated insertJob db cleaning_jobs].
      rewrite hasJob_app, hasJob_single. cbn [job_property_id checkout_date].
      rewrite String.eqb_refl. cbn [andb]. now rewrite orb_assoc.
Qed.

(** X17. Dates covered after a clean sync: when the feed, the cleaner
    lookup and every query and insert succeed, the property has a job for
    a date afterwards exactly when it had one before or some upcoming
    checkout falls on that date. *)
Theorem X17_dates_covered (tz : Z) (ICAL_parse : string -> option (list VEvent))
    (env : PropertyEnv) (property : Property) (db0 : Db)
    (events : list ICalEvent) (cleaners : option (list PropertyCleaner)) (k : string) :
  parseICalFromUrl ICAL_parse env (ical_url property) = Exc.Return events ->
  cleanersQuery env = QueryData cleaners ->
  (forall i, checkError env i = false) ->
  (forall i, insertError env i = false) ->
  hasJob (id property) k
    (cleaning_jobs (db (syncPropertyWorld tz ICAL_parse env property db0))) = true
  <-> hasJob (id property) k (cleaning_jobs db0) = true
      \/ exists c, In c (upcomingOf tz env events) /\ dateKey (date c) = k.
Proof.
  intros Hp Hc Hcheck Hinsert.
  rewrite (sync_completes tz ICAL_parse env property db0 events cleaners Hp Hc).
  cbn [setSuccess updateProperties db cleaning_jobs].
  rewrite (reconcile_key_set env property _ _ Hcheck Hinsert).
  cbn [db cleaning_jobs]. rewrite orb_true_iff, existsb_exists.
  split; intros [H|(c & Hin & Hk)]; auto; right; exists c; split; auto.
  - now apply String.eqb_eq.
  - now apply String.eqb_eq.
Qed.

Lemma X17_dates_covered_witness :
  hasJob "1" "2024-01-15"
    (cleaning_jobs
       (db (syncPropertyWorld 0 Sample.feed
              (Sample.world Sample.noFault (Sample.property "1"))
              (Sample.property "1") Sample.emptyDb))) = true.
Proof.
  apply (X17_dates_covered 0 Sample.feed
           (Sample.world Sample.noFault (Sample.property "1"))
           (Sample.property "1") Sample.emptyDb
           [Sample.bookingA; Sample.bookingB] Sample.cleaners "2024-01-15"
           eq_refl eq_refl (fun _ => eq_refl) (fun _ => eq_refl)).
  right. eexists. split; [right; left; reflexivity | reflexivity].
Defined.

(** ** The handler *)

Section Handler.
Variable tz : Z.
Variable ICAL_parse : string -> option (list VEvent).
Variable envOf : Property -> PropertyEnv.

Lemma syncProperty_appends (env : PropertyEnv) (p : Property) (db0 : Db) :
  exists new,
    cleaning_jobs (snd (syncProperty tz ICAL_parse env p db0)) = cleaning_jobs db0 ++ new
    /\ List.length new = jobs_created (fst (syncProperty tz ICAL_parse env p db0))
    /\ property_id (fst (syncProperty tz ICAL_parse env p db0)) = id p.
Proof.
  unfold syncProperty. cbn [fst snd].
  destruct (parseICalFromUrl ICAL_parse env (ical_url p)) as [events|message] eqn:Hp.
  - destruct (cleanersQuery env) as [cleaners|message] eqn:Hc.
    + rewrite (sync_completes tz ICAL_parse env p db0 events cleaners Hp Hc).
      match goal with
      | |- context [reconcile ?e ?q ?c ?i ?cs ?w0] =>
          destruct (reconcile_rows e q c cs i w0) as (kept & _ & Hj & Hn);
          destruct (reconcile_frame e q c cs i w0) as (_ & _ & _ & Hi & _)
      end.
      exists (map (jobFor p (assignedCleaner cleaners)) kept).
      cbn [setSuccess updateProperties db result cleaning_jobs jobs_created property_id].
      rewrite Hj, Hn, Hi, length_map. repeat split.
    + rewrite (sync_cleaners_failure tz ICAL_parse env p db0 events message Hp Hc).
      exists []. simpl. now rewrite app_nil_r.
  - rewrite (sync_feed_failure tz ICAL_parse env p db0 message Hp).
    exists []. simpl. now rewrite app_nil_r.
Qed.

Lemma syncEach_appends (props : list Property) :
  forall db0, exists new,
    cleaning_jobs (snd (syncEach tz ICAL_parse envOf props db0)) = cleaning_jobs db0 ++ new
    /\ List.length new
       = total_jobs_created (summarize (fst (syncEach tz ICAL_parse envOf props db0)))
    /\ map property_id (fst (syncEach tz ICAL_parse envOf props db0)) = map id props.
Proof.
  induction props as [|p ps IH]; intros db0.
  - exists []. simpl. now rewrite app_nil_r.
  - rewrite syncEach_cons. cbn [fst snd].
    destruct (syncProperty_appends (envOf p) p db0) as (new1 & H1 & L1 & I1).
    destruct (IH (snd (syncProperty tz ICAL_parse (envOf p) p db0)))
      as (new2 & H2 & L2 & I2).
    exists (new1 ++ new2). split; [|split].
    + rewrite H2, H1. now rewrite app_assoc.
    + unfold summarize in *. cbn [total_jobs_created fold_left] in *.
      rewrite total_jobs_from, length_app, L1, L2. lia.
    + cbn [map]. now rewrite I1, I2.
Qed.

End Handler.

(** X18. The summary accounts for the store: when the handler answers with
    a summary, the stored jobs are kept in place, the number of rows added
    after them is the [jobs_created] total of the summary, the details
    list the active properties in table order, and every one of them is
    counted as synced or as an error. *)
Theorem X18_summary_accounts_for_rows (tz : Z) (ICAL_parse : string -> option (list VEvent))
    (senv : ServeEnv) (db0 db1 : Db) (body : SyncSummary) :
  serve tz ICAL_parse senv db0 = (Completed body, db1) ->
  (exists new, cleaning_jobs db1 = cleaning_jobs db0 ++ new
               /\ List.length new = total_jobs_created body)
  /\ map property_id (details body) = map id (filter active (properties db0))
  /\ (synced body + errors body)%nat = List.length (filter active (properties db0)).
Proof.
  unfold serve.
  destruct (isPreflight senv); [discriminate|].
  destruct (configured senv); cbn [negb]; [|discriminate].
  destruct (propertiesQuery senv); [discriminate|].
  destruct (filter active (properties db0)) as [|p ps] eqn:E; [discriminate|].
  destruct (syncEach_appends tz ICAL_parse (envOf senv) (p :: ps) db0)
    as (new & Hj & Hl & Hi).
  destruct (syncEach tz ICAL_parse (envOf senv) (p :: ps) db0) as [results db'] eqn:Hrun.
  cbn [fst snd] in *. intros [= <- <-].
  split; [exists new; split; assumption|]. split; [exact Hi|].
  rewrite summarize_counts.
  rewrite <- (length_map property_id), Hi. apply length_map.
Qed.

Lemma X18_summary_accounts_for_rows_witness :
  exists body db1,
    serve 0 Sample.feed Sample.request Sample.emptyDb = (Completed body, db1)
    /\ map property_id (details body) = ["1"; "2"; "3"]%string
    /\ (synced body + errors body)%nat = 3%nat.
Proof.
  destruct (serve 0 Sample.feed Sample.request Sample.emptyDb) as [response db1] eqn:E.
  destruct response as [| | |body]; try (vm_compute in E; discriminate).
  exists body, db1. split; [reflexivity|].
  destruct (X18_summary_accounts_for_rows 0 Sample.feed Sample.request
              Sample.emptyDb db1 body E) as (_ & H1 & H2).
  split; [exact H1 | exact H2].
Defined.

(** X19. When nothing is synced: the handler answers with a summary exactly
    when the request is not a preflight, the configuration is present, the
    property query succeeds and some property is active; in every other
    case it leaves the store as it found it, and an error response always
    carries status 500. *)
Theorem X19_handler_early_exits (tz : Z) (ICAL_parse : string -> option (list VEvent))
    (senv : ServeEnv) (db0 : Db) :
  ((exists body, fst (serve tz ICAL_parse senv db0) = Completed body)
   <-> isPreflight senv = false /\ configured senv = true
       /\ propertiesQuery senv = None /\ filter active (properties db0) <> [])
  /\ ((forall body, fst (serve tz ICAL_parse senv db0) <> Completed body) ->
      snd (serve tz ICAL_parse senv db0) = db0)
  /\ (forall message code,
        fst (serve tz ICAL_parse senv db0) = ErrorResponse message code -> code = 500)
  /\ (isPreflight senv = true -> fst (serve tz ICAL_parse senv db0) = CorsResponse).
Proof.
  unfold serve.
  destruct (isPreflight senv);
    [| destruct (configured senv); cbn [negb];
       [destruct (propertiesQuery senv) as [m|];
        [| destruct (filter active (properties db0)) as [|p ps];
           [| destruct (syncEach tz ICAL_parse (envOf senv) (p :: ps) db0)
                as [results db1]]] |]];
    cbn [fst snd];
    (split; [split; [intros [body Hb] | intros (H1 & H2 & H3 & H4)]
            | split; [intros Hn | split; [intros message code Hm | intros Hpre]]]);
    try discriminate; try reflexivity; try congruence.
  - repeat split. discriminate.
  - now exists (summarize results).
  - now destruct (Hn (summarize results)).
Qed.

Lemma Forall2_map_left {A B : Type} (R : A -> B -> Prop) (g : A -> A) (l : list A)
    (l' : list B) :
  Forall2 R (map g l) l' -> Forall2 (fun a b => R (g a) b) l l'.
Proof.
  revert l'. induction l as [|a l IH]; intros l' H; inversion H; subst; constructor; auto.
Qed.

Lemma Forall2_same {A : Type} (R : A -> A -> Prop) (l : list A) :
  (forall a, R a a) -> Forall2 R l l.
Proof. intros H. induction l; constructor; auto. Qed.

Lemma sameOtherColumns_refl (r : Property) : sameOtherColumns r r.
Proof. unfold sameOtherColumns. tauto. Qed.

Lemma sameOtherColumns_trans (a b c : Property) :
  sameOtherColumns a b -> sameOtherColumns b c -> sameOtherColumns a c.
Proof. unfold sameOtherColumns. intuition congruence. Qed.

Section Rows.
Variable tz : Z.
Variable ICAL_parse : string -> option (list VEvent).

Lemma syncProperty_rows (env : PropertyEnv) (p : Property) (db0 : Db) :
  exists f,
    (forall r, sameOtherColumns r (f r))
    /\ properties (snd (syncProperty tz ICAL_parse env p db0))
       = map (fun r => if String.eqb (id r) (id p) then f r else r) (properties db0).
Proof.
  unfold syncProperty. cbn [snd].
  destruct (parseICalFromUrl ICAL_parse env (ical_url p)) as [events|message] eqn:Hp.
  - destruct (cleanersQuery env) as [cleaners|message] eqn:Hc.
    + rewrite (sync_completes tz ICAL_parse env p db0 events cleaners Hp Hc).
      match goal with
      | |- context [reconcile ?e ?q ?c ?i ?cs ?w0] =>
          destruct (reconcile_frame e q c cs i w0) as (Hprops & _)
      end.
      eexists. split; [|cbn [setSuccess updateProperties db properties];
                         rewrite Hprops; reflexivity].
      intros r. unfold sameOtherColumns. simpl. tauto.
    + rewrite (sync_cleaners_failure tz ICAL_parse env p db0 events message Hp Hc).
      eexists. split; [|reflexivity].
      intros r. unfold sameOtherColumns. simpl. tauto.
  - rewrite (sync_feed_failure tz ICAL_parse env p db0 message Hp).
    eexists. split; [|reflexivity].
    intros r. unfold sameOtherColumns. simpl. tauto.
Qed.

Lemma syncEach_rows (envOf : Property -> PropertyEnv) (props : list Property) :
  forall db0,
    Forall2 (fun r r' => sameOtherColumns r r'
                         /\ (~ In (id r) (map id props) -> r' = r))
            (properties db0)
            (properties (snd (syncEach tz ICAL_parse envOf props db0))).
Proof.
  induction props as [|p ps IH]; intros db0.
  - simpl. apply Forall2_same. intros r. split; [apply sameOtherColumns_refl | reflexivity].
  - rewrite syncEach_cons. cbn [snd].
    destruct (syncProperty_rows (envOf p) p db0) as (f & Hf & Hrows).
    specialize (IH (snd (syncProperty tz ICAL_parse (envOf p) p db0))).
    rewrite Hrows in IH. apply Forall2_map_left in IH.
    revert IH. apply Forall2_impl. intros r r' [Hsame Hkeep].
    assert (Hstep : sameOtherColumns r (if String.eqb (id r) (id p) then f r else r)).
    { destruct (String.eqb (id r) (id p)); [apply Hf | apply sameOtherColumns_refl]. }
    split; [eapply sameOtherColumns_trans; eauto|].
    intros Hnot. cbn [map In] in Hnot.
    destruct (String.eqb_spec (id r) (id p)) as [He|Hne]; [exfalso; auto|].
    apply Hkeep. tauto.
Qed.

End Rows.

(** X20. Property rows under the handler: whatever the handler answers, the
    property table keeps its rows, in order; only the two sync columns of a
    row can change, and a row whose id is not the id of an active property
    is left exactly as it was. *)
Theorem X20_property_rows_preserved (tz : Z) (ICAL_parse : string -> option (list VEvent))
    (senv : ServeEnv) (db0 : Db) :
  Forall2 (fun r r' =>
             sameOtherColumns r r'
             /\ (~ In (id r) (map id (filter active (properties db0))) -> r' = r))
          (properties db0)
          (properties (snd (serve tz ICAL_parse senv db0))).
Proof.
  assert (Hsame : Forall2 (fun r r' =>
                     sameOtherColumns r r'
                     /\ (~ In (id r) (map id (filter active (properties db0))) -> r' = r))
                    (properties db0) (properties db0)).
  { apply Forall2_same. intros r. split; [apply sameOtherColumns_refl | reflexivity]. }
  unfold serve.
  destruct (isPreflight senv); [exact Hsame|].
  destruct (configured senv); cbn [negb]; [|exact Hsame].
  destruct (propertiesQuery senv); [exact Hsame|].
  destruct (filter active (properties db0)) as [|p ps] eqn:E; [exact Hsame|].
  pose proof (syncEach_rows tz ICAL_parse (envOf senv) (p :: ps) db0) as H.
  destruct (syncEach tz ICAL_parse (envOf senv) (p :: ps) db0) as [results db1].
  exact H.
Qed.

(** ** The sort of the events *)

(** X21. The sort step: the sorted sequence holds the events of the feed,
    each as often as the feed does, by ascending end, and events that end
    at the same instant keep the order they have in the feed. *)
Theorem X21_sort_is_stable_ascending (events : list ICalEvent) :
  Permutation (sortByEnd events) events
  /\ StronglySorted byEnd (sortByEnd events)
  /\ (forall k, filter (fun e => end_ e =? k) (sortByEnd events)
                = filter (fun e => end_ e =? k) events).
Proof.
  split; [apply sortByEnd_perm|]. split; [apply sortByEnd_sorted|].
  intros k. apply sortByEnd_stable.
Qed.

(** ** Grouping by month *)

Import Grouping.

Section SortBy.
Context {A : Type}.
Variable key : A -> Z.

Lemma insertBy_perm (x : A) (l : list A) : Permutation (insertBy key x l) (x :: l).
Proof.
  induction l as [|y r IH]; simpl; [reflexivity|].
  destruct (key x <=? key y); [reflexivity|].
  rewrite IH. apply perm_swap.
Qed.

Lemma sortBy_perm (l : list A) : Permutation (sortBy key l) l.
Proof.
  induction l as [|x r IH]; simpl; [reflexivity|].
  rewrite insertBy_perm. now constructor.
Qed.

Lemma insertBy_sorted (x : A) (l : list A) :
  StronglySorted (fun a b => key a <= key b) l ->
  StronglySorted (fun a b => key a <= key b) (insertBy key x l).
Proof.
  induction 1 as [|y r Hr IH Hy]; simpl.
  - repeat constructor.
  - destruct (Z.leb_spec (key x) (key y)) as [Hle|Hgt].
    + constructor; [now constructor|]. constructor; [exact Hle|].
      revert Hy. apply Forall_impl. intros; lia.
    + constructor; [exact IH|].
      apply (Permutation_Forall (Permutation_sym (insertBy_perm x r))).
      constructor; [lia | exact Hy].
Qed.

Lemma sortBy_sorted (l : list A) :
  StronglySorted (fun a b => key a <= key b) (sortBy key l).
Proof.
  induction l as [|x r IH]; simpl; [constructor | now apply insertBy_sorted].
Qed.

Lemma sortBy_nil_iff (l : list A) : sortBy key l = [] <-> l = [].
Proof.
  split; [|now intros ->]. intros H.
  pose proof (sortBy_perm l) as Hp. rewrite H in Hp.
  now apply Permutation_nil in Hp.
Qed.

End SortBy.

Section Groups.
Variable tz : Z.

Let step (g : Grouped) (c : ParsedCheckout) : Grouped :=
  push (monthKey tz (date c)) c g.

Let inMonth (k : string) (c : ParsedCheckout) : bool :=
  String.eqb (monthKey tz (date c)) k.

Lemma get_push (k key : string) (c : ParsedCheckout) (g : Grouped) :
  get k (push key c g)
  = if String.eqb key k
    then Some (match get k g with Some v => v ++ [c] | None => [c] end)
    else get k g.
Proof.
  induction g as [|[k0 v] r IH]; simpl.
  - destruct (String.eqb key k); reflexivity.
  - destruct (String.eqb_spec k0 key) as [->|Hne]; simpl.
    + destruct (String.eqb key k); reflexivity.
    + rewrite IH. destruct (String.eqb_spec k0 k) as [->|Hne'];
        destruct (String.eqb_spec key k) as [->|Hne'']; congruence.
Qed.

Lemma get_fold (k : string) (cs : list ParsedCheckout) :
  forall g,
    get k (fold_left step cs g)
    = match get k g with
      | Some v => Some (v ++ filter (inMonth k) cs)
      | None => match filter (inMonth k) cs with
                | [] => None
                | l => Some l
                end
      end.
Proof.
  unfold step, inMonth.
  induction cs as [|c cs IH]; intros g; cbn [fold_left filter].
  - destruct (get k g); [now rewrite app_nil_r | reflexivity].
  - rewrite IH, get_push.
    destruct (String.eqb (monthKey tz (date c)) k).
    + destruct (get k g); [now rewrite <- app_assoc | reflexivity].
    + reflexivity.
Qed.

Lemma get_map_values (h : list ParsedCheckout -> list ParsedCheckout) (k : string)
    (g : Grouped) :
  get k (map (fun kv => (fst kv, h (snd kv))) g) = option_map h (get k g).
Proof.
  induction g as [|[k0 v] r IH]; simpl; [reflexivity|].
  destruct (String.eqb k0 k); [reflexivity | exact IH].
Qed.

Lemma keys_push (key : string) (c : ParsedCheckout) (g : Grouped) :
  (forall k, In k (map fst (push key c g)) <-> k = key \/ In k (map fst g))
  /\ (NoDup (map fst g) -> NoDup (map fst (push key c g))).
Proof.
  induction g as [|[k0 v] r [IH1 IH2]]; simpl.
  - split; [intros k; intuition | intros _; repeat constructor; auto].
  - destruct (String.eqb_spec k0 key) as [->|Hne]; simpl.
    + split; [intros k; intuition | auto].
    + split.
      * intros k. rewrite IH1. intuition.
      * intros Hnd. inversion Hnd as [|? ? Hni Hnd']; subst.
        constructor; [|auto]. rewrite IH1. intuition.
Qed.

Lemma keys_fold (cs : list ParsedCheckout) :
  forall g, NoDup (map fst g) -> NoDup (map fst (fold_left step cs g)).
Proof.
  induction cs as [|c cs IH]; intros g Hnd; [exact Hnd|].
  cbn [fold_left]. apply IH. unfold step. now apply keys_push.
Qed.

Lemma get_In (g : Grouped) (k : string) (v : list ParsedCheckout) :
  NoDup (map fst g) -> In (k, v) g -> get k g = Some v.
Proof.
  induction g as [|[k0 v0] r IH]; simpl; [tauto|].
  intros Hnd [[= -> ->]|Hin].
  - now rewrite String.eqb_refl.
  - inversion Hnd as [|? ? Hni Hnd']; subst.
    destruct (String.eqb_spec k0 k) as [->|Hne]; [|auto].
    exfalso. apply Hni. change k with (fst (k, v)). now apply in_map.
Qed.

Lemma get_group (k : string) (cs : list ParsedCheckout) :
  get k (groupCheckoutsByMonth tz cs)
  = match filter (inMonth k) cs with
    | [] => None
    | l => Some (sortBy date l)
    end.
Proof.
  unfold groupCheckoutsByMonth. rewrite get_map_values.
  change (fun g checkout => push (monthKey tz (date checkout)) checkout g) with step.
  rewrite get_fold. simpl. now destruct (filter (inMonth k) cs).
Qed.

Lemma keys_group (cs : list ParsedCheckout) :
  NoDup (map fst (groupCheckoutsByMonth tz cs)).
Proof.
  unfold groupCheckoutsByMonth. rewrite map_map. cbn [fst].
  change (fun g checkout => push (monthKey tz (date checkout)) checkout g) with step.
  apply keys_fold. constructor.
Qed.

Lemma concat_push (key : string) (c : ParsedCheckout) (g : Grouped) :
  Permutation (List.concat (map snd (push key c g))) (c :: List.concat (map snd g)).
Proof.
  induction g as [|[k0 v] r IH]; simpl; [reflexivity|].
  destruct (String.eqb k0 key); simpl.
  - rewrite <- app_assoc. simpl. symmetry. apply Permutation_middle.
  - rewrite IH. symmetry. apply Permutation_middle.
Qed.

Lemma concat_fold (cs : list ParsedCheckout) :
  forall g, Permutation (List.concat (map snd (fold_left step cs g)))
                        (List.concat (map snd g) ++ cs).
Proof.
  induction cs as [|c cs IH]; intros g; cbn [fold_left].
  - now rewrite app_nil_r.
  - rewrite IH. unfold step. rewrite concat_push.
    simpl. apply Permutation_middle.
Qed.

Lemma concat_sorted_values (g : Grouped) :
  Permutation (List.concat (map snd (map (fun kv => (fst kv, sortBy date (snd kv))) g)))
              (List.concat (map snd g)).
Proof.
  induction g as [|[k v] r IH]; simpl; [reflexivity|].
  apply Permutation_app; [apply sortBy_perm | exact IH].
Qed.

End Groups.

(** X22. Groups by month: the keys of the map are pairwise different; the
    group stored under a key holds exactly the checkouts whose local month
    has that key, sorted by date with ties in input order; and a key of a
    month without checkout is absent, so no group is empty. *)
Theorem X22_groups_by_month (tz : Z) (checkouts : list ParsedCheckout) :
  NoDup (map fst (groupCheckoutsByMonth tz checkouts))
  /\ (forall k,
        get k (groupCheckoutsByMonth tz checkouts)
        = match filter (fun c => String.eqb (monthKey tz (date c)) k) checkouts with
          | [] => None
          | members => Some (sortBy date members)
          end)
  /\ (forall k v, In (k, v) (groupCheckoutsByMonth tz checkouts) ->
        v <> []
        /\ StronglySorted byDate v
        /\ (forall c, In c v <-> In c checkouts /\ monthKey tz (date c) = k)).
Proof.
  split; [apply keys_group|]. split; [intros k; apply (get_group tz k checkouts)|].
  intros k v Hin.
  apply (get_In tz) in Hin; [|apply keys_group].
  rewrite (get_group tz k checkouts) in Hin.
  destruct (filter _ checkouts) as [|c0 r] eqn:E; [discriminate|].
  injection Hin as <-. split; [|split].
  - intros H. apply (proj1 (sortBy_nil_iff date (c0 :: r))) in H. discriminate.
  - apply (sortBy_sorted date (c0 :: r)).
  - intros c. split.
    + intros Hc. apply (Permutation_in c (sortBy_perm date (c0 :: r))) in Hc.
      rewrite <- E in Hc.
      apply filter_In in Hc as [H1 H2]. apply String.eqb_eq in H2. tauto.
    + intros [H1 H2].
      apply (Permutation_in c (Permutation_sym (sortBy_perm date (c0 :: r)))).
      rewrite <- E. apply filter_In. split; [exact H1 | now apply String.eqb_eq].
Qed.

(** X23. Grouping loses nothing: the groups, taken together, hold the
    input checkouts, each as often as the input does. *)
Theorem X23_grouping_is_a_partition (tz : Z) (checkouts : list ParsedCheckout) :
  Permutation (List.concat (map snd (groupCheckoutsByMonth tz checkouts))) checkouts.
Proof.
  unfold groupCheckoutsByMonth.
  rewrite concat_sorted_values.
  exact (concat_fold tz checkouts []).
Qed.

(** The sample checkouts of January and February. *)
Example grouping_example :
  map (fun kv => (fst kv, map date (snd kv)))
      (groupCheckoutsByMonth 0
         [Sample.checkoutAt Sample.feb1; Sample.checkoutAt Sample.jan31;
          Sample.checkoutAt Sample.jan1])
  = [("2024-02"%string, [Sample.feb1]); ("2024-01"%string, [Sample.jan1; Sample.jan31])].
Proof. reflexivity. Qed.

(** ** Truncating text *)

Import Formatting.

Lemma length_append (a b : string) :
  String.length (a ++ b) = (String.length a + String.length b)%nat.
Proof. induction a as [|c a IH]; simpl; [reflexivity | now rewrite IH]. Qed.

Lemma length_substring_le (n : nat) (s : string) :
  (String.length (substring 0 n s) <= n)%nat.
Proof.
  revert s. induction n as [|n IH]; intros s.
  - destruct s; simpl; lia.
  - destruct s as [|c s]; simpl; [lia|]. specialize (IH s). lia.
Qed.

Lemma length_trimStart (s : string) : (String.length (trimStart s) <= String.length s)%nat.
Proof.
  induction s as [|c s IH]; simpl; [lia|].
  destruct (isSpace c); simpl; lia.
Qed.

Lemma length_trimEnd (s : string) : (String.length (trimEnd s) <= String.length s)%nat.
Proof.
  induction s as [|c s IH]; simpl; [lia|].
  destruct (trimEnd s); [destruct (isSpace c)|]; simpl in *; lia.
Qed.

Lemma length_trim (s : string) : (String.length (trim s) <= String.length s)%nat.
Proof.
  unfold trim. pose proof (length_trimEnd (trimStart s)). pose proof (length_trimStart s). lia.
Qed.

(** X24. Truncation: a text that fits in [maxLength] characters, or any
    text when [maxLength] is below 1, is returned as it is; a longer text
    is cut and ends with three dots, and the result has at most
    [maxLength] characters when [maxLength] is at least 3, and is exactly
    the three dots, longer than asked, when [maxLength] is 1 or 2. *)
Theorem X24_truncateText_bounds (text : string) (maxLength : Z) :
  (maxLength < 1 \/ Z.of_nat (String.length text) <= maxLength ->
   truncateText text maxLength = text)
  /\ (1 <= maxLength < Z.of_nat (String.length text) ->
      exists kept, truncateText text maxLength = (kept ++ "...")%string
                   /\ Z.of_nat (String.length kept) <= Z.max 0 (maxLength - 3))
  /\ (3 <= maxLength ->
      Z.of_nat (String.length (truncateText text maxLength)) <= maxLength)
  /\ (1 <= maxLength < 3 -> maxLength < Z.of_nat (String.length text) ->
      truncateText text maxLength = "..."%string).
Proof.
  unfold truncateText.
  destruct (String.eqb_spec text EmptyString) as [->|Hne].
  { simpl. repeat split; try reflexivity; intros; lia. }
  destruct (Z.ltb_spec maxLength 1) as [Hlt|Hge].
  { repeat split; try reflexivity; intros; lia. }
  destruct (Z.leb_spec (Z.of_nat (String.length text)) maxLength) as [Hfit|Hlong].
  { repeat split; try reflexivity; intros; lia. }
  pose proof (length_trim (substring 0 (Z.to_nat (Z.max 0 (maxLength - 3))) text)) as Ht.
  pose proof (length_substring_le (Z.to_nat (Z.max 0 (maxLength - 3))) text) as Hs.
  split; [intros [?|?]; lia|]. split; [|split].
  - intros _. eexists. split; [reflexivity|]. lia.
  - intros H3. rewrite length_append. simpl. lia.
  - intros H12 _. replace (Z.max 0 (maxLength - 3)) with 0 by lia.
    simpl. now destruct text.
Qed.

(** ** The payment-intent handler *)

Ltac handler_cases env :=
  unfold Payment.handler, Payment.createIntent;
  destruct (String.eqb (Payment.method env) "OPTIONS");
  [| destruct (Payment.authError env);
     [| destruct (Payment.authUser env) as [user|];
        [destruct (Payment.json env) as [request|thrown];
         [destruct (String.eqb_spec (Payment.user_id user) (Payment.userId request));
          cbn [negb];
          [destruct (Payment.amountRejected (Payment.amount request)) eqn:Hamount;
           [| destruct (Payment.profileQuery env) as [profile|];
              [destruct (Payment.orElse (Payment.stripe_customer_id profile) None)
                 as [customerId|] eqn:Hcustomer;
               [destruct (Payment.paymentIntentsCreate env _ _ _ _) eqn:Hintent
               | destruct (Payment.customersCreate env _ _ _) as [created|]
                   eqn:Hcreate;
                 [destruct (Payment.paymentIntentsCreate env _ _ _ _) eqn:Hintent|]]
              |]]
          |]
         |]
        |]]];
  cbn [fst snd Payment.status Payment.body app].

Lemma amountRejected_number (n : Z) :
  Payment.amountRejected (Payment.Number n) = false <-> 50 <= n.
Proof.
  cbn [Payment.amountRejected].
  destruct (Z.eqb_spec n 0), (Z.ltb_spec n 50); cbn [orb]; split;
    intros; try discriminate; try reflexivity; lia.
Qed.

(** X25. No call without the checks: whenever the handler calls the
    payment provider or writes a profile, the request came from an
    authenticated user, named that same user, carried an amount that the
    test [!amount || amount < 50] let through, and the profile was found;
    an amount that is an integer number is then at least 50, and no amount
    is missing; every call is made for that user, a payment intent is for
    the amount as it came in the request, and at most three calls are
    made. *)
Theorem X25_calls_only_after_checks (env : Payment.Env) :
  snd (Payment.handler env) <> [] ->
  exists user request,
    Payment.authError env = false
    /\ Payment.authUser env = Some user
    /\ Payment.json env = Payment.Returns request
    /\ Payment.user_id user = Payment.userId request
    /\ Payment.amountRejected (Payment.amount request) = false
    /\ (forall n, Payment.amount request = Payment.Number n -> 50 <= n)
    /\ Payment.amount request <> Payment.Undefined
    /\ Payment.profileQuery env <> None
    /\ Forall (callFor (Payment.user_id user) (Payment.amount request))
              (snd (Payment.handler env))
    /\ (List.length (snd (Payment.handler env)) <= 3)%nat.
Proof.
  handler_cases env; intros Hcalls; try (now destruct Hcalls);
    exists user, request; rewrite <- ?e in *;
    (split; [reflexivity|]); (split; [reflexivity|]); (split; [reflexivity|]);
    (split; [reflexivity|]); (split; [exact Hamount|]);
    (split; [intros n Hn; rewrite Hn in Hamount; now apply amountRejected_number|]);
    (split; [intros Hn; rewrite Hn in Hamount; discriminate|]);
    (split; [discriminate|]);
    (split; [repeat constructor | cbn; lia]).
Qed.

Lemma X25_calls_only_after_checks_witness :
  let env := {| Payment.method := "POST";
                Payment.authUser := Some {| Payment.user_id := "u1";
                                            Payment.user_email := None |};
                Payment.authError := false;
                Payment.json := Payment.Returns {| Payment.userId := "u1";
                                                   Payment.amount := Payment.Number 1500;
                                                   Payment.currency := None |};
                Payment.profileQuery := Some {| Payment.stripe_customer_id := Some "cus_1"%string;
                                                Payment.email := None;
                                                Payment.full_name := None |};
                Payment.customersCreate := fun _ _ _ => Payment.Throws Payment.OtherErr;
                Payment.paymentIntentsCreate := fun _ _ _ _ => Payment.Returns "secret"%string |} in
  exists user request,
    Payment.authUser env = Some user
    /\ Payment.json env = Payment.Returns request
    /\ Payment.amountRejected (Payment.amount request) = false.
Proof.
  intros env.
  assert (H : snd (Payment.handler env) <> []) by (vm_compute; discriminate).
  destruct (X25_calls_only_after_checks env H)
    as (user & request & _ & H1 & H2 & _ & H3 & _).
  exists user, request. tauto.
Defined.

(** An amount that is not a number passes the test and reaches the
    provider as it is; a missing one, zero and 49 are refused with status
    400 before any call. *)
Example amounts_at_the_test :
  let env (a : Payment.JsonValue) :=
    {| Payment.method := "POST";
       Payment.authUser := Some {| Payment.user_id := "u1"; Payment.user_email := None |};
       Payment.authError := false;
       Payment.json := Payment.Returns {| Payment.userId := "u1"; Payment.amount := a;
                                          Payment.currency := None |};
       Payment.profileQuery := Some {| Payment.stripe_customer_id := Some "cus_1"%string;
                                       Payment.email := None; Payment.full_name := None |};
       Payment.customersCreate := fun _ _ _ => Payment.Throws Payment.OtherErr;
       Payment.paymentIntentsCreate := fun _ _ _ _ => Payment.Returns "secret"%string |} in
  let object := Payment.Other "{}" false false in
  snd (Payment.handler (env object))
  = [Payment.PaymentIntentsCreate object "usd" "cus_1" "u1"]
  /\ Payment.status (fst (Payment.handler (env object))) = 200
  /\ Forall (fun a => Payment.status (fst (Payment.handler (env a))) = 400
                      /\ snd (Payment.handler (env a)) = [])
       [Payment.Undefined; Payment.Number 0; Payment.Number 49;
        Payment.Other "null" true false; Payment.Other "49.5" false true]
  /\ snd (Payment.handler (env (Payment.Number 50)))
     = [Payment.PaymentIntentsCreate (Payment.Number 50) "usd" "cus_1" "u1"].
Proof. repeat split; repeat constructor. Qed.

(** X26. A successful answer: when the handler answers with a client
    secret, the status is 200, the secret is the one the provider returned
    for a payment intent of the requested amount, in the requested currency
    or in usd when none was given, for the customer named in the answer;
    that call is the last one, and it is preceded either by nothing or by
    the creation of that customer and the storing of its id in the profile
    of the user. *)
Theorem X26_success_shape (env : Payment.Env) (secret customer : string) :
  Payment.body (fst (Payment.handler env)) = Payment.SuccessBody secret customer ->
  Payment.status (fst (Payment.handler env)) = 200
  /\ exists request a uid pre,
       Payment.json env = Payment.Returns request
       /\ Payment.amount request = a
       /\ Payment.amountRejected a = false
       /\ uid = Payment.userId request
       /\ snd (Payment.handler env)
          = pre ++ [Payment.PaymentIntentsCreate a
                      (match Payment.currency request with
                       | Some c => c
                       | None => "usd"%string
                       end) customer uid]
       /\ Payment.paymentIntentsCreate env a
            (match Payment.currency request with
             | Some c => c
             | None => "usd"%string
             end) customer uid = Payment.Returns secret
       /\ (pre = []
           \/ exists email name,
                pre = [Payment.CustomersCreate email name uid;
                       Payment.ProfileUpdate uid customer]
                /\ Payment.customersCreate env email name uid = Payment.Returns customer).
Proof.
  handler_cases env; try discriminate;
    try (destruct thrown as [err|]; cbn; discriminate);
    try (destruct t as [err|]; cbn; discriminate).
  - intros [= <- <-]. split; [reflexivity|].
    exists request, (Payment.amount request), (Payment.userId request), [].
    rewrite <- e in *. repeat split; auto.
  - intros [= <- <-]. split; [reflexivity|].
    exists request, (Payment.amount request), (Payment.userId request),
      [Payment.CustomersCreate
         (Payment.orElse (Payment.email profile) (Payment.user_email user))
         (Payment.orElse (Payment.full_name profile) None) (Payment.userId request);
       Payment.ProfileUpdate (Payment.userId request) created].
    repeat split; auto. right. eexists. eexists. split; [reflexivity | exact Hcreate].
Qed.

Lemma X26_success_shape_witness :
  let env := {| Payment.method := "POST";
                Payment.authUser := Some {| Payment.user_id := "u1";
                                            Payment.user_email := Some "u1@example.org"%string |};
                Payment.authError := false;
                Payment.json := Payment.Returns {| Payment.userId := "u1";
                                                   Payment.amount := Payment.Number 1500;
                                                   Payment.currency := None |};
                Payment.profileQuery := Some {| Payment.stripe_customer_id := None;
                                                Payment.email := None;
                                                Payment.full_name := None |};
                Payment.customersCreate := fun _ _ _ => Payment.Returns "cus_new"%string;
                Payment.paymentIntentsCreate := fun _ _ _ _ => Payment.Returns "secret"%string |} in
  Payment.status (fst (Payment.handler env)) = 200.
Proof.
  intros env.
  exact (proj1 (X26_success_shape env "secret" "cus_new" eq_refl)).
Defined.

(** X27. The customer of a profile: when the profile already holds a
    customer id, no customer is created and no profile is written: every
    call is a payment intent for that customer. When it holds none and the
    provider is called, the first call creates a customer with the email
    of the profile, or of the account when the profile has none. *)
Theorem X27_customer_reuse (env : Payment.Env) (stored : Payment.Profile) :
  Payment.profileQuery env = Some stored ->
  (forall c, Payment.stripe_customer_id stored = Some c -> c <> EmptyString ->
     Forall (fun call => exists a cur u, call = Payment.PaymentIntentsCreate a cur c u)
            (snd (Payment.handler env)))
  /\ (Payment.orElse (Payment.stripe_customer_id stored) None = None ->
      forall call rest user, snd (Payment.handler env) = call :: rest ->
        Payment.authUser env = Some user ->
        exists name u,
          call = Payment.CustomersCreate
                   (Payment.orElse (Payment.email stored) (Payment.user_email user))
                   name u).
Proof.
  intros Hprofile. split.
  - intros c Hc Hne.
    assert (Hor : Payment.orElse (Payment.stripe_customer_id stored) None = Some c).
    { unfold Payment.orElse. rewrite Hc.
      destruct (String.eqb_spec c EmptyString); [contradiction | reflexivity]. }
    revert Hprofile.
    handler_cases env; intros Hp; try constructor; try discriminate;
      injection Hp as ->; rewrite Hor in Hcustomer; try discriminate;
      injection Hcustomer as <-; repeat constructor; eauto.
  - intros Hnone call rest user0. revert Hprofile.
    handler_cases env; intros Hp Hcalls Huser; try discriminate;
      injection Hp as ->; rewrite Hnone in Hcustomer; try discriminate;
      injection Huser as <-; injection Hcalls as <- _; eauto.
Qed.

Lemma X27_customer_reuse_witness :
  let profile := {| Payment.stripe_customer_id := Some "cus_1"%string;
                    Payment.email := None; Payment.full_name := None |} in
  let env := {| Payment.method := "POST";
                Payment.authUser := Some {| Payment.user_id := "u1";
                                            Payment.user_email := None |};
                Payment.authError := false;
                Payment.json := Payment.Returns {| Payment.userId := "u1";
                                                   Payment.amount := Payment.Number 1500;
                                                   Payment.currency := Some "eur"%string |};
                Payment.profileQuery := Some profile;
                Payment.customersCreate := fun _ _ _ => Payment.Throws Payment.OtherErr;
                Payment.paymentIntentsCreate := fun _ _ _ _ => Payment.Returns "secret"%string |} in
  Forall (fun call => exists a cur u, call = Payment.PaymentIntentsCreate a cur "cus_1" u)
         (snd (Payment.handler env)).
Proof.
  intros profile env.
  refine (proj1 (X27_customer_reuse env profile eq_refl) "cus_1"%string eq_refl _).
  discriminate.
Defined.

(** ** Date keys and days *)

Lemma civilFromDays_inverse (z : Z) :
  let '(y, m, d) := civilFromDays z in
  daysFromCivil y m d = z /\ 1 <= m <= 12 /\ 1 <= d <= 31.
Proof.
  unfold civilFromDays, daysFromCivil. cbv zeta.
  set (z' := z + 719468).
  set (era := z' / 146097). set (doe := z' mod 146097).
  set (yoe := (doe - doe / 1460 + doe / 36524 - doe / 146096) / 365).
  set (doy := doe - (365 * yoe + yoe / 4 - yoe / 100)).
  set (mp := (5 * doy + 2) / 153).
  assert (Hdoe : 0 <= doe <= 146096)
    by (subst doe; pose proof (Z.mod_pos_bound z' 146097); lia).
  assert (Hz : z' = 146097 * era + doe) by (subst era doe; apply Z.div_mod; lia).
  assert (Hy : 0 <= yoe <= 399 /\ 0 <= doy <= 365).
  { subst doy yoe. clearbody doe. clear Hz. Z.div_mod_to_equations. lia. }
  destruct Hy as [Hyoe Hdoy].
  assert (Hmp : 0 <= mp <= 11) by (subst mp; clearbody doy; Z.div_mod_to_equations; lia).
  assert (Hd : 1 <= doy - (153 * mp + 2) / 5 + 1 <= 31)
    by (subst mp; clearbody doy; Z.div_mod_to_equations; lia).
  assert (Edoy : doy = doe - (365 * yoe + yoe / 4 - yoe / 100)) by reflexivity.
  assert (Ez : z' = z + 719468) by reflexivity.
  clearbody mp doy yoe doe era z'.
  destruct (Z.ltb_spec mp 10) as [Hlt|Hge].
  - destruct (Z.leb_spec (mp + 3) 2); [lia|].
    destruct (Z.ltb_spec 2 (mp + 3)); [|lia].
    replace (mp + 3 - 3) with mp by lia.
    replace ((yoe + era * 400) / 400) with era by (Z.div_mod_to_equations; lia).
    replace ((yoe + era * 400) mod 400) with yoe by (Z.div_mod_to_equations; lia).
    split; lia.
  - destruct (Z.leb_spec (mp - 9) 2); [|lia].
    destruct (Z.ltb_spec 2 (mp - 9)); [lia|].
    replace (mp - 9 + 9) with mp by lia.
    replace (yoe + era * 400 + 1 - 1) with (yoe + era * 400) by lia.
    replace ((yoe + era * 400) / 400) with era by (Z.div_mod_to_equations; lia).
    replace ((yoe + era * 400) mod 400) with yoe by (Z.div_mod_to_equations; lia).
    split; lia.
Qed.

Lemma civilFromDays_year (z : Z) :
  -100000000 <= z <= 100000000 ->
  let '(y, _, _) := civilFromDays z in -999999 <= y <= 999999.
Proof.
  intros Hz. unfold civilFromDays. cbv zeta.
  set (z' := z + 719468).
  set (era := z' / 146097). set (doe := z' mod 146097).
  set (yoe := (doe - doe / 1460 + doe / 36524 - doe / 146096) / 365).
  assert (Hdoe : 0 <= doe <= 146096)
    by (subst doe; pose proof (Z.mod_pos_bound z' 146097); lia).
  assert (Hyoe : 0 <= yoe <= 399).
  { subst yoe. clearbody doe. Z.div_mod_to_equations. lia. }
  assert (Hera : -700 <= era <= 700).
  { subst era z'. Z.div_mod_to_equations. lia. }
  clearbody yoe era.
  destruct (_ <=? 2); lia.
Qed.

Lemma digit_code (n : Z) : N_of_ascii (digit n) = Z.to_N (48 + n mod 10).
Proof.
  unfold digit. apply N_ascii_embedding.
  pose proof (Z.mod_pos_bound n 10 eq_refl). lia.
Qed.

Lemma digit_inj (a b : Z) : digit a = digit b -> a mod 10 = b mod 10.
Proof.
  intros H. apply (f_equal N_of_ascii) in H. rewrite !digit_code in H.
  pose proof (Z.mod_pos_bound a 10 eq_refl). pose proof (Z.mod_pos_bound b 10 eq_refl).
  lia.
Qed.

Lemma digit_not_sign (n : Z) : digit n <> "-"%char /\ digit n <> "+"%char.
Proof.
  pose proof (Z.mod_pos_bound n 10 eq_refl).
  split; intros E; apply (f_equal N_of_ascii) in E; rewrite digit_code in E.
  - change (N_of_ascii "-") with 45%N in E. lia.
  - change (N_of_ascii "+") with 43%N in E. lia.
Qed.

Ltac digits :=
  repeat match goal with
         | H : digit _ = digit _ |- _ => apply digit_inj in H
         | H : digit _ = "-"%char |- _ => exfalso; exact (proj1 (digit_not_sign _) H)
         | H : digit _ = "+"%char |- _ => exfalso; exact (proj2 (digit_not_sign _) H)
         | H : "-"%char = digit _ |- _ => symmetry in H
         | H : "+"%char = digit _ |- _ => symmetry in H
         end.

Lemma date_text_inj (y m d y' m' d' : Z) :
  -999999 <= y <= 999999 -> -999999 <= y' <= 999999 ->
  0 <= m <= 99 -> 0 <= m' <= 99 -> 0 <= d <= 99 -> 0 <= d' <= 99 ->
  (yearString y ++ "-" ++ pad2 m ++ "-" ++ pad2 d)%string
  = (yearString y' ++ "-" ++ pad2 m' ++ "-" ++ pad2 d')%string ->
  y = y' /\ m = m' /\ d = d'.
Proof.
  intros Hy Hy' Hm Hm' Hd Hd'. unfold yearString, pad6, pad4, pad3, pad2.
  destruct (Z.leb_spec 0 y), (Z.leb_spec y 9999), (Z.leb_spec 0 y'), (Z.leb_spec y' 9999);
    cbn [andb];
    repeat match goal with
           | |- context [?a <? 0] => destruct (Z.ltb_spec a 0); try lia
           end;
    cbn [append]; intros Heq; try discriminate Heq;
    injection Heq; intros; digits;
    try (Z.div_mod_to_equations; lia).
Qed.

Lemma dateKey_day (t t' : Z) :
  validTime t -> validTime t' -> dateKey t = dateKey t' -> Day t = Day t'.
Proof.
  intros Ht Ht'.
  rewrite !dateKey_dateString. unfold dateString.
  assert (Hday : forall x, validTime x -> -100000000 <= Day x <= 100000000).
  { intros x Hx. unfold validTime in Hx. unfold Day, msPerDay.
    Z.div_mod_to_equations. lia. }
  pose proof (civilFromDays_inverse (Day t)) as H1.
  pose proof (civilFromDays_inverse (Day t')) as H2.
  pose proof (civilFromDays_year (Day t) (Hday t Ht)) as Y1.
  pose proof (civilFromDays_year (Day t') (Hday t' Ht')) as Y2.
  destruct (civilFromDays (Day t)) as [[y m] d].
  destruct (civilFromDays (Day t')) as [[y' m'] d'].
  cbv beta iota in Y1, Y2.
  destruct H1 as (<- & Hm & Hd). destruct H2 as (<- & Hm' & Hd').
  intros H. apply date_text_inj in H; try lia.
  destruct H as (-> & -> & ->). reflexivity.
Qed.

(** X28. Date keys and days: for time values a date can hold, two instants
    have the same job key exactly when they fall on the same UTC day. *)
Theorem X28_date_key_identifies_the_day (t t' : Z) :
  validTime t -> validTime t' ->
  (dateKey t = dateKey t' <-> Day t = Day t').
Proof.
  intros Ht Ht'. split; [now apply dateKey_day | apply dateKey_same_day].
Qed.

Lemma X28_date_key_identifies_the_day_witness :
  dateKey Sample.june1 = dateKey Sample.june1_afternoon
  <-> Day Sample.june1 = Day Sample.june1_afternoon.
Proof.
  apply X28_date_key_identifies_the_day;
    unfold validTime, Sample.june1, Sample.june1_afternoon; lia.
Defined.

(** X29. A new day gets its job: when every stored job of the property is
    dated on a UTC day other than the day of a checkout, and neither the
    existence query nor the insert of its iteration fails, the loop inserts
    the job of that checkout, counts it, and goes on with the rest. *)
Theorem X29_new_day_gets_a_job (env : PropertyEnv) (property : Property)
    (cleaner : option string) (i : nat) (c : ParsedCheckout)
    (rest : list ParsedCheckout) (w : World) :
  validTime (date c) ->
  (forall j, In j (cleaning_jobs (db w)) -> job_property_id j = id property ->
     exists t, validTime t /\ checkout_date j = dateKey t /\ Day t <> Day (date c)) ->
  checkError env i = false ->
  insertError env i = false ->
  reconcile env property cleaner i (c :: rest) w
  = reconcile env property cleaner (S i) rest
      (note Created (incrJobsCreated (insertJob (jobFor property cleaner c) w))).
Proof.
  intros Hc Hjobs Hcheck Hinsert.
  rewrite reconcile_cons, Hcheck, Hinsert.
  destruct (hasJob (id property) (dateKey (date c)) (cleaning_jobs (db w))) eqn:Hhas;
    [|reflexivity].
  exfalso. apply hasJob_true_iff in Hhas as (j & Hin & Hp & Hk).
  destruct (Hjobs j Hin Hp) as (t & Ht & Hkey & Hday).
  apply Hday. apply dateKey_day; [exact Ht | exact Hc | congruence].
Qed.

Lemma X29_new_day_gets_a_job_witness :
  let property := Sample.property "1" in
  let env := Sample.world Sample.noFault property in
  let w := {| db := {| properties := [property];
                       cleaning_jobs := [Sample.job "1" (dateKey Sample.jan31)] |};
              result := {| property_id := "1"; property_name := "Flat";
                           success := false; jobs_created := 0; error := None |};
              log := [] |} in
  jobs_created
    (result (reconcile env property None 0 [Sample.checkoutAt Sample.june1_afternoon] w))
  = 1%nat.
Proof.
  intros property env w.
  rewrite (X29_new_day_gets_a_job env property None 0
             (Sample.checkoutAt Sample.june1_afternoon) [] w).
  - reflexivity.
  - unfold validTime, Sample.checkoutAt, Sample.june1_afternoon.
    cbn [date]. lia.
  - intros j [<-|[]] _. exists Sample.jan31.
    split; [unfold validTime, Sample.jan31; lia|].
    split; [reflexivity|]. vm_compute. discriminate.
  - reflexivity.
  - reflexivity.
Defined.

Lemma subsequence_In {A : Type} (l1 l2 : list A) (x : A) :
  subsequence l1 l2 -> In x l1 -> In x l2.
Proof.
  induction 1 as [|y l1 l2 _ IH|y l1 l2 _ IH]; simpl; [tauto | auto |].
  intros [->|H]; auto.
Qed.

(** X30. Jobs are for upcoming bookings only: when the feed and the cleaner
    lookup succeed, every row the sync adds belongs to a non-blocked event
    of the feed whose end lies between today's local midnight and the
    midnight 31 days later; it is keyed by the UTC date of that end, bears
    the property's id and the status pending. *)
Theorem X30_jobs_only_for_upcoming_bookings (tz : Z)
    (ICAL_parse : string -> option (list VEvent))
    (env : PropertyEnv) (property : Property) (db0 : Db)
    (events : list ICalEvent) (cleaners : option (list PropertyCleaner)) :
  parseICalFromUrl ICAL_parse env (ical_url property) = Exc.Return events ->
  cleanersQuery env = QueryData cleaners ->
  exists new,
    cleaning_jobs (db (syncPropertyWorld tz ICAL_parse env property db0))
    = cleaning_jobs db0 ++ new
    /\ Forall (fun j =>
                 job_property_id j = id property
                 /\ status j = "pending"%string
                 /\ exists e, In e events
                              /\ ~ blockedLabel (summary e)
                              /\ checkout_date j = dateKey (end_ e)
                              /\ startOfDay tz (clockAtFilter env) <= end_ e
                                 < startOfDay tz (clockAtFilter env) + 31 * msPerDay)
              new.
Proof.
  intros Hp Hc.
  rewrite (sync_completes tz ICAL_parse env property db0 events cleaners Hp Hc).
  match goal with
  | |- context [reconcile ?e ?q ?c ?i ?cs ?w0] =>
      destruct (reconcile_rows e q c cs i w0) as (kept & Hs & Hj & _)
  end.
  exists (map (jobFor property (assignedCleaner cleaners)) kept).
  split; [exact Hj|].
  apply Forall_forall. intros j Hin. apply in_map_iff in Hin as (c & <- & Hc').
  apply (subsequence_In _ _ _ Hs) in Hc'.
  unfold upcomingOf, filterUpcomingCheckouts in Hc'.
  apply filter_In in Hc' as [Hext Hup].
  apply extractCheckouts_In in Hext as (Hev & Hb & Hd & _).
  apply isUpcoming_true in Hup. unfold withinWindow in Hup. cbv zeta in Hup.
  cbn [daysOrDefault] in Hup.
  pose proof (startOfDay_le tz (date c)) as Hsod.
  split; [reflexivity|]. split; [reflexivity|].
  exists (event c). split; [exact Hev|]. split; [now apply isBlocked_false_iff|].
  cbn [jobFor checkout_date]. rewrite <- Hd. split; [reflexivity|].
  unfold msPerDay in *. lia.
Qed.

Lemma X30_jobs_only_for_upcoming_bookings_witness :
  let p := Sample.property "1" in
  let env := Sample.world Sample.noFault p in
  exists new,
    cleaning_jobs (db (syncPropertyWorld 0 Sample.feed env p Sample.emptyDb))
    = cleaning_jobs Sample.emptyDb ++ new
    /\ Forall (fun j => job_property_id j = "1"%string /\ status j = "pending"%string) new.
Proof.
  intros p env.
  destruct (X30_jobs_only_for_upcoming_bookings 0 Sample.feed env p Sample.emptyDb
              [Sample.bookingA; Sample.bookingB] Sample.cleaners eq_refl eq_refl)
    as (new & H1 & H2).
  exists new. split; [exact H1|].
  revert H2. apply Forall_impl. intros j (Ha & Hb & _). split; assumption.
Defined.
